(** * Contract-generation pipeline: classifier, gateway, sanitizer, governor

    A shallow embedding of the serverless contract-generation function
    (rate limiter [checkRateLimit], [ContractTemplateService], [LLMService]
    and the request [handler]) together with the properties of its
    specification.

    Modelling conventions.
    - A JavaScript string is a list of code units.  The development covers
      strings whose code units are below 256 (Latin-1), so a code unit is an
      [ascii]; [toLowerCase], [trim], and the regular-expression classes are
      written out for that range.
    - [Date.now()] is an input of type [Z] (milliseconds).
    - The module-level [rateLimitMap] is threaded explicitly as a [gmap].
    - The HTTP backend is an oracle indexed by the attempt number; for one
      request the prompt pair and the sampling parameters are fixed, so the
      backend's dependence on them is part of the oracle.
    - A thrown exception is a value [Throw name message].
    - Of a JSON value that is an object or an array only one thing is kept:
      whether its conversion to a string returns.  The text of the prompts is
      not modelled, only whether logging the category and building the
      prompts throws. *)

From Stdlib Require Import ZArith Ascii String List Bool Lia DecimalString.
From stdpp Require Import gmap strings list.

Local Open Scope Z_scope.
Local Open Scope list_scope.

(** ** JavaScript values and strings *)

Module Js.

Abbreviation str := (list ascii).

Definition lit (s : string) : str := list_ascii_of_string s.

Definition LF : ascii := ascii_of_N 10.
Definition CR : ascii := ascii_of_N 13.

(** The values a JSON body or a provider envelope can hold.  Of an object
    or an array only one thing is kept: whether its conversion to a string
    returns.  For a value parsed from JSON it does not when an own [toString]
    property, which is no function, stands in the way: in an object that has
    one, and in an array with such an element. *)
Inductive value :=
  | Undefined
  | Null
  | Boolean (b : bool)
  | Number (n : Z)
  | Str (s : str)
  | Object (printable : bool).

(** ToBoolean. *)
Definition truthy (v : value) : bool :=
  match v with
  | Undefined | Null => false
  | Boolean b => b
  | Number n => negb (n =? 0)
  | Str s => match s with [] => false | _ => true end
  | Object _ => true
  end.

(** The conversion to a string, in a template literal or as a property key,
    throws a [TypeError]. *)
Definition unprintable (v : value) : bool :=
  match v with
  | Object printable => negb printable
  | _ => false
  end.

(** A thrown [Error]: its [name] and its [message]. *)
Record exn := Throw { exn_name : str; exn_message : str }.

Inductive result (A : Type) :=
  | Ok (a : A)
  | Err (e : exn).
Arguments Ok {A} a.
Arguments Err {A} e.

Definition ascii_eqb (a b : ascii) : bool := Ascii.eqb a b.

Fixpoint str_eqb (a b : str) : bool :=
  match a, b with
  | [], [] => true
  | x :: a', y :: b' => ascii_eqb x y && str_eqb a' b'
  | _, _ => false
  end.

(** [s.startsWith(p)] *)
Fixpoint startsWith (p s : str) : bool :=
  match p with
  | [] => true
  | x :: p' =>
      match s with
      | [] => false
      | y :: s' => ascii_eqb x y && startsWith p' s'
      end
  end.

(** [s.includes(p)] *)
Fixpoint includes (p s : str) : bool :=
  startsWith p s ||
  match s with
  | [] => false
  | _ :: s' => includes p s'
  end.

(** [String.prototype.toLowerCase] on one Latin-1 code unit: A-Z and the
    upper-case letters of the Latin-1 supplement (U+00C0-U+00DE without the
    multiplication sign U+00D7) move up by 32. *)
Definition lower_unit (c : ascii) : ascii :=
  let n := N_of_ascii c in
  if ((65 <=? n) && (n <=? 90))%N then ascii_of_N (n + 32)
  else if ((192 <=? n) && (n <=? 222) && negb (n =? 215))%N then ascii_of_N (n + 32)
  else c.

Definition toLowerCase (s : str) : str := map lower_unit s.

(** WhiteSpace and LineTerminator code units below 256: TAB, LF, VT, FF, CR,
    SPACE, NBSP.  This is the set [trim] strips and the class [\s]. *)
Definition is_space (c : ascii) : bool :=
  let n := N_of_ascii c in
  ((9 <=? n) && (n <=? 13) || (n =? 32) || (n =? 160))%N.

(** LineTerminator code units below 256: the characters [.] refuses and the
    ones [^] and [$] look at under the [m] flag. *)
Definition is_line_terminator (c : ascii) : bool :=
  ascii_eqb c LF || ascii_eqb c CR.

Definition is_digit (c : ascii) : bool :=
  let n := N_of_ascii c in ((48 <=? n) && (n <=? 57))%N.

(** The class [\w]: letters, digits and the underscore. *)
Definition is_word (c : ascii) : bool :=
  let n := N_of_ascii c in
  ((48 <=? n) && (n <=? 57) || (65 <=? n) && (n <=? 90) ||
   (97 <=? n) && (n <=? 122) || (n =? 95))%N.

Fixpoint trimStart (s : str) : str :=
  match s with
  | [] => []
  | c :: s' => if is_space c then trimStart s' else s
  end.

Fixpoint trimEnd (s : str) : str :=
  match s with
  | [] => []
  | c :: s' =>
      match trimEnd s' with
      | [] => if is_space c then [] else [c]
      | r => c :: r
      end
  end.

(** [s.trim()] *)
Definition trim (s : str) : str := trimEnd (trimStart s).

(** [s.split(sep)] for a one-character separator: the pieces between the
    separators, so a string without separator gives one piece. *)
Fixpoint split (sep : ascii) (s : str) : list str :=
  match s with
  | [] => [[]]
  | c :: s' =>
      if ascii_eqb c sep then [] :: split sep s'
      else
        match split sep s' with
        | [] => [[c]]
        | l :: ls => (c :: l) :: ls
        end
  end.

(** [lines.join(sep)] *)
Fixpoint join (sep : str) (ls : list str) : str :=
  match ls with
  | [] => []
  | [l] => l
  | l :: ls' => l ++ sep ++ join sep ls'
  end.

(** The number of code units equal to [c]:
    [(s.match(/c/g) || []).length] for a single literal character. *)
Definition count_char (c : ascii) (s : str) : nat :=
  length (filter (fun x => ascii_eqb x c = true) s).

(** [array.findIndex(p)], [None] for -1. *)
Fixpoint findIndex {A} (p : A -> bool) (l : list A) : option nat :=
  match l with
  | [] => None
  | x :: l' => if p x then Some 0%nat else option_map S (findIndex p l')
  end.

(** [array.splice(i, 0, x)]: insert [x] before index [i]. *)
Definition splice_insert {A} (i : nat) (x : A) (l : list A) : list A :=
  take i l ++ x :: drop i l.

(** Decimal rendering of a number inside a template literal. *)
Definition of_nat (n : nat) : str := lit (NilEmpty.string_of_uint (Nat.to_uint n)).

End Js.

Import Js.

(** ** The regular expressions of the sanitizer

    Every regular expression in the source is a sequence of literals, literal
    alternatives, repeated one-character classes, an optional character and
    the end-of-line assertion, possibly anchored with [^].  [exec] is the
    backtracking matcher of ECMAScript restricted to these forms: it returns
    the length of the match found first in priority order. *)

Module Regex.

Inductive atom :=
  | Lit (s : str)                                   (* abc *)
  | Alt (ss : list str)                             (* (a|b|c) *)
  | Rep (cls : ascii -> bool) (least : nat) (greedy : bool)
                                                    (* x*  x*?  x+  x{n,} *)
  | Opt (c : ascii)                                 (* c? *)
  | Eol.                                            (* $ with the m flag *)

Record regex := {
  anchored : bool;        (* the pattern starts with ^ *)
  ignoreCase : bool;      (* the i flag *)
  atoms : list atom
}.

(** [.] matches everything but a line terminator. *)
Definition dot (c : ascii) : bool := negb (is_line_terminator c).

(** Canonicalize of the [i] flag, as far as the patterns need it: their
    literals are ASCII, and a code unit of 128 or more never canonicalizes to
    an ASCII one, so folding a-z decides every comparison with a literal. *)
Definition canon (c : ascii) : ascii :=
  let n := N_of_ascii c in
  if ((97 <=? n) && (n <=? 122))%N then ascii_of_N (n - 32) else c.

Definition unit_eqb (ci : bool) (a b : ascii) : bool :=
  if ci then ascii_eqb (canon a) (canon b) else ascii_eqb a b.

(** The literal [p] matches at the start of [s]. *)
Fixpoint lit_at (ci : bool) (p s : str) : bool :=
  match p with
  | [] => true
  | x :: p' =>
      match s with
      | [] => false
      | y :: s' => unit_eqb ci x y && lit_at ci p' s'
      end
  end.

(** [$] with the [m] flag: at the end of the input or before a line
    terminator. *)
Definition at_eol (s : str) : bool :=
  match s with
  | [] => true
  | c :: _ => is_line_terminator c
  end.

Fixpoint exec (ci : bool) (p : list atom) (s : str) {struct p} : option nat :=
  match p with
  | [] => Some 0%nat
  | Lit l :: p' =>
      if lit_at ci l s
      then option_map (Nat.add (length l)) (exec ci p' (drop (length l) s))
      else None
  | Alt ls :: p' =>
      (fix alt (ls : list str) : option nat :=
         match ls with
         | [] => None
         | l :: ls' =>
             if lit_at ci l s then
               match exec ci p' (drop (length l) s) with
               | Some n => Some (length l + n)%nat
               | None => alt ls'
               end
             else alt ls'
         end) ls
  | Rep cls least greedy :: p' =>
      (fix rep (need : nat) (s : str) {struct s} : option nat :=
         match need with
         | S j =>
             match s with
             | x :: s' => if cls x then option_map S (rep j s') else None
             | [] => None
             end
         | O =>
             if greedy then
               match s with
               | x :: s' =>
                   if cls x then
                     match rep O s' with
                     | Some n => Some (S n)
                     | None => exec ci p' s
                     end
                   else exec ci p' s
               | [] => exec ci p' s
               end
             else
               match exec ci p' s with
               | Some n => Some n
               | None =>
                   match s with
                   | x :: s' => if cls x then option_map S (rep O s') else None
                   | [] => None
                   end
               end
         end) least s
  | Opt c :: p' =>
      match s with
      | x :: s' =>
          if ascii_eqb x c then
            match exec ci p' s' with
            | Some n => Some (S n)
            | None => exec ci p' s
            end
          else exec ci p' s
      | [] => exec ci p' s
      end
  | Eol :: p' => if at_eol s then exec ci p' s else None
  end.

(** [^] with the [m] flag holds at the start of the input and after a line
    terminator; [prev] is the code unit before the position. *)
Definition at_bol (prev : option ascii) : bool :=
  match prev with
  | None => true
  | Some c => is_line_terminator c
  end.

Definition match_at (r : regex) (prev : option ascii) (s : str) : option nat :=
  if anchored r && negb (at_bol prev) then None else exec (ignoreCase r) (atoms r) s.

(** [s.replace(r, by)] for a regex with the [g] flag.  The matches are
    located in the original string from left to right; [skip] counts the code
    units of the current match still to be dropped.  An empty match replaces
    nothing and the scan moves on by one code unit. *)
Fixpoint replace_from (r : regex) (by_ : str) (prev : option ascii) (skip : nat)
    (s : str) : str :=
  match s with
  | [] =>
      match skip, match_at r prev [] with
      | O, Some _ => by_
      | _, _ => []
      end
  | c :: s' =>
      match skip with
      | S k => replace_from r by_ (Some c) k s'
      | O =>
          match match_at r prev s with
          | Some (S n) => by_ ++ replace_from r by_ (Some c) n s'
          | Some O => by_ ++ c :: replace_from r by_ (Some c) O s'
          | None => c :: replace_from r by_ (Some c) O s'
          end
      end
  end.

Definition replaceAll (r : regex) (by_ : str) (s : str) : str :=
  replace_from r by_ None O s.

(** [s.match(r)] for a regex without the [g] flag whose pattern starts with
    [^] and has no [m] flag: only the start of the string can match. *)
Definition test_start (p : list atom) (s : str) : bool :=
  match exec false p s with Some _ => true | None => false end.

End Regex.

Import Regex.

(** ** Request governor: [checkRateLimit] and the shared [rateLimitMap] *)

Module Governor.

(** [rateLimitMap]: identity to the recorded admission times. *)
Abbreviation rate_map := (gmap str (list Z)).

Definition default_limit : nat := 10.
Definition default_window : Z := 15 * 60 * 1000.

(** [checkRateLimit(ip, limit, window)] at time [now]: the verdict and the
    map afterwards.  [filter] builds a new array, and the map is written only
    on the granting path. *)
Definition checkRateLimit (m : rate_map) (now : Z) (ip : str)
    (limit : nat) (window : Z) : bool * rate_map :=
  let requests := default [] (m !! ip) in
  let validRequests := filter (fun time => now - time < window) requests in
  if (limit <=? length validRequests)%nat then (false, m)
  else (true, <[ip := validRequests ++ [now]]> m).

(** A run of checks of one identity, one per time of [times], in order. *)
Fixpoint checks (m : rate_map) (ip : str) (limit : nat) (window : Z)
    (times : list Z) : list bool * rate_map :=
  match times with
  | [] => ([], m)
  | now :: rest =>
      let '(b, m1) := checkRateLimit m now ip limit window in
      let '(bs, m2) := checks m1 ip limit window rest in
      (b :: bs, m2)
  end.

End Governor.

Import Governor.

(** ** [ContractTemplateService]: classifier and sanitizer *)

Module Templates.

(** The seven categories, the keys of [this.contractTypes]. *)
Inductive contract_type := erc20 | erc721 | multisig | crowdfunding | defi | governance | custom.

Record type_config := { keywords : list str; name : str }.

(** [this.contractTypes]: [Object.entries] lists the keys in the order in
    which the literal declares them. *)
Definition contractTypes : list (contract_type * type_config) :=
  [ (erc20, {| keywords := map lit ["token"; "erc20"; "coin"; "currency"; "payment"; "fungible"]%string;
               name := lit "ERC-20 Token Contract" |});
    (erc721, {| keywords := map lit ["nft"; "collectible"; "art"; "unique"; "non-fungible"; "erc721"]%string;
                name := lit "ERC-721 NFT Contract" |});
    (multisig, {| keywords := map lit ["multisig"; "multi-signature"; "wallet"; "governance"; "voting"]%string;
                  name := lit "Multi-Signature Wallet" |});
    (crowdfunding, {| keywords := map lit ["crowdfunding"; "fundraising"; "ico"; "investment"; "raise"]%string;
                      name := lit "Crowdfunding Contract" |});
    (defi, {| keywords := map lit ["defi"; "lending"; "staking"; "yield"; "liquidity"; "farming"]%string;
              name := lit "DeFi Protocol Contract" |});
    (governance, {| keywords := map lit ["dao"; "governance"; "voting"; "proposal"; "democracy"]%string;
                    name := lit "DAO Governance Contract" |});
    (custom, {| keywords := map lit ["custom"; "specific"; "tailored"; "bespoke"]%string;
                name := lit "Custom Smart Contract" |}) ].

(** The inner loop of [detectContractType]: does some keyword occur? *)
Fixpoint scan_keywords (text : str) (kws : list str) : bool :=
  match kws with
  | [] => false
  | keyword :: rest => if includes keyword text then true else scan_keywords text rest
  end.

(** The outer loop: the first entry one of whose keywords occurs. *)
Fixpoint scan_types (text : str) (entries : list (contract_type * type_config))
    : option contract_type :=
  match entries with
  | [] => None
  | (type, config) :: rest =>
      if scan_keywords text (keywords config) then Some type else scan_types text rest
  end.

Definition detectContractType (requirements : str) : contract_type :=
  let text := toLowerCase requirements in
  match scan_types text contractTypes with
  | Some type => type
  | None => custom
  end.

(** The key of a category, as the handler reports it. *)
Definition type_key (t : contract_type) : str :=
  match t with
  | erc20 => lit "erc20"
  | erc721 => lit "erc721"
  | multisig => lit "multisig"
  | crowdfunding => lit "crowdfunding"
  | defi => lit "defi"
  | governance => lit "governance"
  | custom => lit "custom"
  end.

(** *** [validateAndCleanContract] *)

(** [/```solidity\n?/g] and [/```\n?/g] *)
Definition fence_solidity : regex :=
  {| anchored := false; ignoreCase := false; atoms := [Lit (lit "```solidity"); Opt LF] |}.
Definition fence_plain : regex :=
  {| anchored := false; ignoreCase := false; atoms := [Lit (lit "```"); Opt LF] |}.

Definition lazy_dots : atom := Rep dot 0 false.   (* .*? *)
Definition greedy_dots : atom := Rep dot 0 true.  (* .*  *)

(** [/a.*?b.*?:/gi] and [/a.*?:/gi] *)
Definition phrase2 (a b : string) : regex :=
  {| anchored := false; ignoreCase := true;
     atoms := [Lit (lit a); lazy_dots; Lit (lit b); lazy_dots; Lit (lit ":")] |}.
Definition phrase1 (a : string) : regex :=
  {| anchored := false; ignoreCase := true;
     atoms := [Lit (lit a); lazy_dots; Lit (lit ":")] |}.
(** [/^.*?w.*?:/gim] *)
Definition line_upto (w : string) : regex :=
  {| anchored := true; ignoreCase := true;
     atoms := [lazy_dots; Lit (lit w); lazy_dots; Lit (lit ":")] |}.
(** [/^w.*$/gim] *)
Definition line_from (w : string) : regex :=
  {| anchored := true; ignoreCase := true;
     atoms := [Lit (lit w); greedy_dots; Eol] |}.

Definition explanatoryPatterns : list regex :=
  [ phrase2 "Here's" "contract";
    phrase2 "This" "contract";
    phrase2 "I'll" "create";
    phrase1 "Below is";
    phrase1 "The following";
    phrase1 "Here is";
    phrase1 "This is";
    line_upto "implementation";
    line_upto "example";
    line_upto "solution";
    line_from "Note:";
    line_from "Important:";
    line_from "Remember:";
    {| anchored := true; ignoreCase := true;
       atoms := [Lit (lit "**"); lazy_dots; Lit (lit "**"); Eol] |};
    line_from "## ";
    line_from "# " ].

(** [/^(contract|interface|library)\s+\w+/] *)
Definition declaration_re : list atom :=
  [Alt (map lit ["contract"; "interface"; "library"]%string);
   Rep is_space 1 true; Rep is_word 1 true].

(** [/^\d+\./] *)
Definition numbered_re : list atom := [Rep is_digit 1 true; Lit (lit ".")].

Definition has (w : string) (s : str) : bool := includes (lit w) s.
Definition starts (w : string) (s : str) : bool := startsWith (lit w) s.

Definition isSolidityLine (foundSolidityStart : bool) (trimmedLine : str) : bool :=
  starts "// SPDX-License-Identifier:" trimmedLine ||
  starts "pragma solidity" trimmedLine ||
  starts "import " trimmedLine ||
  test_start declaration_re trimmedLine ||
  starts "//" trimmedLine && foundSolidityStart ||
  (foundSolidityStart &&
   (has "{" trimmedLine || has "}" trimmedLine ||
    has "function" trimmedLine || has "modifier" trimmedLine ||
    has "event" trimmedLine || has "struct" trimmedLine ||
    has "enum" trimmedLine || has "mapping" trimmedLine ||
    has "uint" trimmedLine || has "string" trimmedLine ||
    has "bool" trimmedLine || has "address" trimmedLine ||
    has "bytes" trimmedLine || str_eqb trimmedLine [])).

Definition isExplanation (trimmedLine : str) : bool :=
  (0 <? length trimmedLine)%nat && negb (starts "//" trimmedLine) &&
  (has "This contract" trimmedLine || has "The above" trimmedLine ||
   has "This implementation" trimmedLine || has "Features:" trimmedLine ||
   has "Usage:" trimmedLine || has "Note:" trimmedLine ||
   has "Important:" trimmedLine || has "Remember:" trimmedLine ||
   test_start numbered_re trimmedLine || starts "- " trimmedLine ||
   starts "* " trimmedLine || has "explanation" trimmedLine ||
   has "deploy" trimmedLine && negb (has "function" trimmedLine) ||
   ((8 <? length (split " " trimmedLine))%nat &&
    negb (has "(" trimmedLine) && negb (has "{" trimmedLine))).

(** The [for] loop over [allLines], from line [i] on, with the loop
    variables as arguments; the result is what is pushed on
    [processedLines] from there. *)
Fixpoint processLines (foundSolidityStart : bool) (contractDepth : Z)
    (inContract : bool) (allLines : list str) : list str :=
  match allLines with
  | [] => []
  | line :: rest =>
      let trimmedLine := trim line in
      if negb foundSolidityStart && str_eqb trimmedLine [] then
        processLines foundSolidityStart contractDepth inContract rest
      else
        let isSol := isSolidityLine foundSolidityStart trimmedLine in
        let found := if negb foundSolidityStart && isSol then true else foundSolidityStart in
        if negb isSol && negb found then
          processLines found contractDepth inContract rest
        else if found && negb isSol && isExplanation trimmedLine then
          processLines found contractDepth inContract rest
        else
          let decl := test_start declaration_re trimmedLine in
          let inContract1 := if decl then true else inContract in
          let depth0 := if decl then 0 else contractDepth in
          if inContract1 then
            let depth1 :=
              depth0 + Z.of_nat (count_char "{" line) - Z.of_nat (count_char "}" line) in
            if (depth1 =? 0) && has "}" trimmedLine then [line]
            else line :: processLines found depth1 inContract1 rest
          else line :: processLines found depth0 inContract1 rest
  end.

Definition license_marker : str := lit "SPDX-License-Identifier".
Definition pragma_marker : str := lit "pragma solidity".
Definition default_license : str := lit "// SPDX-License-Identifier: MIT".
Definition default_pragma : str := lit "pragma solidity ^0.8.19;".

(** Steps 1 to 3: the fences, the explanatory phrases, the line loop. *)
Definition stripNarration (contractCode : str) : str :=
  let cleaned := replaceAll fence_plain [] (replaceAll fence_solidity [] contractCode) in
  let cleaned := fold_left (fun acc pattern => replaceAll pattern [] acc)
                   explanatoryPatterns cleaned in
  join [LF] (processLines false 0 false (split LF cleaned)).

(** "Ensure it starts with SPDX license" *)
Definition ensureLicense (cleaned : str) : str :=
  if includes license_marker cleaned then cleaned
  else default_license ++ [LF] ++ cleaned.

(** "Ensure it has pragma" *)
Definition ensurePragma (cleaned : str) : str :=
  if includes pragma_marker cleaned then cleaned
  else
    let lines := split LF cleaned in
    match findIndex (includes license_marker) lines with
    | Some licenseIndex => join [LF] (splice_insert (licenseIndex + 1) default_pragma lines)
    | None => cleaned
    end.

(** "Basic validation": the test the source makes before it throws. *)
Definition hasDeclaration (cleaned : str) : bool :=
  has "contract " cleaned || has "interface " cleaned || has "library " cleaned.

(** [/\n{3,}/g] *)
Definition blank_run : regex :=
  {| anchored := false; ignoreCase := false;
     atoms := [Rep (fun c => ascii_eqb c LF) 3 true] |}.

(** [cleaned.replace(/\n{3,}/g, '\n\n').trim()] *)
Definition tidy (cleaned : str) : str := trim (replaceAll blank_run [LF; LF] cleaned).

(** The text on which the declaration test is made. *)
Definition prepared (contractCode : str) : str :=
  ensurePragma (ensureLicense (stripNarration contractCode)).

Definition invalid_code : exn :=
  Throw (lit "Error") (lit "Invalid contract code received from LLM").
Definition no_contract : exn :=
  Throw (lit "Error") (lit "Generated code does not contain a valid Solidity contract").

Definition validateAndCleanContract (contractCode : value) : result str :=
  match contractCode with
  | Str (c :: s) =>
      let cleaned := prepared (c :: s) in
      if negb (hasDeclaration cleaned) then Err no_contract
      else Ok (tidy cleaned)
  | _ => Err invalid_code
  end.

End Templates.

Import Templates.

(** ** [LLMService]: the provider gateway *)

Module Gateway.

(** The first element of the list in the provider's envelope:
    [response.data.choices[0]] for OpenAI, whose text is under
    [.message.content] ([message] may be missing), and
    [response.data.content[0]] for Anthropic, whose text is under [.text]. *)
Record item := { message_content : option value; text : value }.

(** What one [axios.post] does. *)
Inductive outcome :=
  | Rejected (e : exn)            (* network failure, timeout, error status *)
  | Resolved (first : option item).
                                  (* [None]: the list is missing or empty *)

(** The backend, by attempt number. *)
Definition backend := nat -> outcome.

Inductive event :=
  | Post (provider : str) (attempt : nat)    (* one HTTP POST *)
  | Delay (ms : Z).                          (* [await this.delay(ms)] *)

Record LLMService := { provider : str; maxRetries : nat; timeout : Z }.

(** The constructor; [env_provider] is [process.env.LLM_PROVIDER]. *)
Definition new_LLMService (env_provider : option str) : LLMService :=
  {| provider := match env_provider with
                 | Some (c :: p) => c :: p
                 | _ => lit "openai"
                 end;
     maxRetries := 3;
     timeout := 30000 |}.

Definition type_error (m : string) : exn := Throw (lit "TypeError") (lit m).

Definition callOpenAI (b : backend) (attempt : nat) : result value :=
  match b attempt with
  | Rejected e => Err e
  | Resolved None => Err (Throw (lit "Error") (lit "Invalid response from OpenAI API"))
  | Resolved (Some it) =>
      match message_content it with
      | Some v => Ok v
      | None => Err (type_error "Cannot read properties of undefined (reading 'content')")
      end
  end.

Definition callAnthropic (b : backend) (attempt : nat) : result value :=
  match b attempt with
  | Rejected e => Err e
  | Resolved None => Err (Throw (lit "Error") (lit "Invalid response from Anthropic API"))
  | Resolved (Some it) => Ok (text it)
  end.

(** The body of the [try] block of one attempt. *)
Definition attempt_once (svc : LLMService) (b : backend) (attempt : nat)
    : list event * result value :=
  if str_eqb (provider svc) (lit "openai") then
    ([Post (provider svc) attempt], callOpenAI b attempt)
  else if str_eqb (provider svc) (lit "anthropic") then
    ([Post (provider svc) attempt], callAnthropic b attempt)
  else
    ([], Err (Throw (lit "Error") (lit "Unsupported LLM provider: " ++ provider svc))).

(** The [for] loop from [attempt] on; [left] is [maxRetries - attempt + 1],
    the number of iterations the loop condition still allows.  When it
    allows none the function falls off its end and returns [undefined]. *)
Fixpoint retry_loop (svc : LLMService) (b : backend) (left attempt : nat)
    : list event * result value :=
  match left with
  | O => ([], Ok Undefined)
  | S left' =>
      let '(evs, r) := attempt_once svc b attempt in
      match r with
      | Ok v => (evs, Ok v)
      | Err error =>
          if (attempt =? maxRetries svc)%nat then
            (evs, Err (Throw (lit "Error")
                         (lit "LLM generation failed after " ++ of_nat (maxRetries svc) ++
                          lit " attempts: " ++ exn_message error)))
          else
            let '(evs', r') := retry_loop svc b left' (S attempt) in
            (evs ++ Delay (2 ^ Z.of_nat attempt * 1000) :: evs', r')
      end
  end.

Definition generateContract (svc : LLMService) (b : backend) : list event * result value :=
  retry_loop svc b (maxRetries svc) 1.

End Gateway.

Import Gateway.

(** ** The request handler *)

Module Api.

(** [options.additionalFeatures], as far as [generateUserPrompt] looks. *)
Inductive features :=
  | FeaturesNone        (* falsy, or its [length] is not above 0 *)
  | FeaturesArray       (* a non-empty array: [join] works *)
  | FeaturesNoJoin      (* positive [length] but no [join], e.g. a string *)
  | FeaturesNoString.   (* its [length], or an element that [join] reaches,
                           has no conversion: [length > 0] or [join] throws *)

(** What [generateUserPrompt] reads of an [options] that is neither missing
    nor [null]; a field that is not there is [Undefined]. *)
Record option_fields := {
  tokenName : value;
  tokenSymbol : value;
  initialSupply : value;
  additionalFeatures : features
}.

Inductive options_arg :=
  | OptionsUndefined                          (* the default [{}] applies *)
  | OptionsNull
  | OptionsValue (fields : option_fields).

Record body := { requirements : value; contractType : value; options : options_arg }.

Record request := {
  method : str;
  forwardedFor : option str;      (* req.headers['x-forwarded-for'] *)
  remoteAddress : option str;     (* req.connection.remoteAddress *)
  req_body : option body          (* [None]: a body that cannot be destructured *)
}.

Inductive response :=
  | Ended (status : nat)
  | Failure (status : nat) (message type : str) (details : option str)
  | Success (contract : str) (contractType : value).

(** [a || b || 'unknown'] on header strings. *)
Definition clientIp (req : request) : str :=
  match forwardedFor req with
  | Some (c :: s) => c :: s
  | _ => match remoteAddress req with
         | Some (c :: s) => c :: s
         | _ => lit "unknown"
         end
  end.

(** What the conversion of [v] to a string throws, if anything. *)
Definition cannot_convert : exn := type_error "Cannot convert object to primitive value".

Definition to_string_exn (v : value) : option exn :=
  if unprintable v then Some cannot_convert else None.

(** What [console.log(`... ${contractType || 'auto-detect'}`)] throws. *)
Definition log_exn (contractType : value) : option exn :=
  if truthy contractType then to_string_exn contractType else None.

(** What [if (v) { prompt += `...${v}\n` }] throws. *)
Definition line_exn (v : value) : option exn :=
  if truthy v then to_string_exn v else None.

(** What the [additionalFeatures] line throws. *)
Definition features_exn (f : features) : option exn :=
  match f with
  | FeaturesNone | FeaturesArray => None
  | FeaturesNoJoin => Some (type_error "options.additionalFeatures.join is not a function")
  | FeaturesNoString => Some cannot_convert
  end.

(** The first of the errors, in the order of the statements. *)
Fixpoint first_exn (steps : list (option exn)) : option exn :=
  match steps with
  | [] => None
  | Some e :: _ => Some e
  | None :: rest => first_exn rest
  end.

(** What the two prompt builders throw, if anything; their text is not
    modelled.  [getSystemPrompt] and [generateUserPrompt] both use
    [contractType] as a property key ([prompts[contractType]],
    [this.contractTypes[contractType]]), which converts it to a string;
    what is found under the key, an entry or a member of [Object.prototype],
    converts without error.  [generateUserPrompt] then reads the options. *)
Definition prompt_exn (contractType : value) (o : options_arg) : option exn :=
  match to_string_exn contractType with
  | Some e => Some e
  | None =>
      match o with
      | OptionsUndefined => None
      | OptionsNull =>
          Some (type_error "Cannot read properties of null (reading 'tokenName')")
      | OptionsValue fields =>
          first_exn [line_exn (tokenName fields); line_exn (tokenSymbol fields);
                     line_exn (initialSupply fields);
                     features_exn (additionalFeatures fields)]
      end
  end.

(** The [catch] clause of the handler. *)
Definition caught (error : exn) : response :=
  Failure 500 (lit "Contract generation failed")
    (match exn_name error with [] => lit "GenerationError" | n => n end)
    (Some (exn_message error)).

Definition validation_error (m : string) : response :=
  Failure 400 (lit m) (lit "ValidationError") None.

(** [requirements] passes [!requirements || typeof requirements !== 'string'
    || requirements.length < 10] *)
Definition requirements_text (v : value) : option str :=
  match v with
  | Str s => if truthy v && negb (length s <? 10)%nat then Some s else None
  | _ => None
  end.

(** [contractType || templateService.detectContractType(requirements)] *)
Definition detectedType (bd : body) (reqs : str) : value :=
  if truthy (contractType bd) then contractType bd
  else Str (type_key (detectContractType reqs)).

Definition handler (m : rate_map) (now : Z) (env_provider : option str)
    (b : backend) (req : request) : response * rate_map * list event :=
  if str_eqb (method req) (lit "OPTIONS") then (Ended 200, m, [])
  else if negb (str_eqb (method req) (lit "POST")) then
    (Failure 405 (lit "Method not allowed") (lit "MethodNotAllowed") None, m, [])
  else
    let '(granted, m1) := checkRateLimit m now (clientIp req) default_limit default_window in
    if negb granted then
      (Failure 429 (lit "Too many requests. Please try again later.")
         (lit "RateLimitExceeded") None, m1, [])
    else
      match req_body req with
      | None =>
          (caught (type_error "Cannot destructure property 'requirements' of 'req.body' as it is undefined."),
           m1, [])
      | Some bd =>
          match requirements_text (requirements bd) with
          | None =>
              (validation_error "Requirements must be at least 10 characters long", m1, [])
          | Some reqs =>
              if (5000 <? length reqs)%nat then
                (validation_error "Requirements must not exceed 5000 characters", m1, [])
              else
                match log_exn (contractType bd) with
                | Some e => (caught e, m1, [])
                | None =>
                    let llmService := new_LLMService env_provider in
                    match prompt_exn (detectedType bd reqs) (options bd) with
                    | Some e => (caught e, m1, [])
                    | None =>
                        let '(evs, generated) := generateContract llmService b in
                        match generated with
                        | Err e => (caught e, m1, evs)
                        | Ok generatedContract =>
                            match validateAndCleanContract generatedContract with
                            | Err e => (caught e, m1, evs)
                            | Ok cleanedContract =>
                                (Success cleanedContract (detectedType bd reqs), m1, evs)
                            end
                        end
                    end
                end
          end
      end.

End Api.

Import Api.

(** * Notions used in the statements *)

(** A category matches a text when one of its keywords occurs in it. *)
Definition category_hit (text : str) (config : type_config) : Prop :=
  Exists (fun keyword => includes keyword text = true) (keywords config).


(** The provider is one of the two the gateway knows. *)
Definition supported (svc : LLMService) : Prop :=
  provider svc = lit "openai" \/ provider svc = lit "anthropic".

(** Attempt [k] fails, with the error [e]. *)
Definition fails_with (svc : LLMService) (b : backend) (k : nat) (e : exn) : Prop :=
  snd (attempt_once svc b k) = Err e.

(** The backend answers attempt [k] with a well-formed envelope whose text
    is [v]: the list has a first element, and [v] stands where the provider
    puts the text. *)
Definition answers_with (svc : LLMService) (b : backend) (k : nat) (v : value) : Prop :=
  exists first, b k = Resolved (Some first) /\
    ((provider svc = lit "openai" /\ message_content first = Some v) \/
     (provider svc = lit "anthropic" /\ text first = v)).

(** The times recorded for an identity ([rateLimitMap.get(ip) || []]). *)
Definition recorded (m : rate_map) (ip : str) : list Z := default [] (m !! ip).

(** The recorded times that [checkRateLimit] keeps at time [now]. *)
Definition live (window now : Z) (r : list Z) : list Z :=
  filter (fun time => now - time < window) r.

(** The times all lie in one window: no two are a window or more apart. *)
Definition in_one_window (window : Z) (times : list Z) : Prop :=
  forall t1 t2, t1 ∈ times -> t2 ∈ times -> t2 - t1 < window.

(** At each of the [times] every time in [old] is a window or more back. *)
Definition elapsed (window : Z) (old times : list Z) : Prop :=
  forall t now, t ∈ old -> now ∈ times -> window <= now - t.

(** The parts of what [handler] returns. *)
Definition response_of (r : response * rate_map * list event) : response := fst (fst r).
Definition map_of (r : response * rate_map * list event) : rate_map := snd (fst r).
Definition events_of (r : response * rate_map * list event) : list event := snd r.

(** The governor lets a check of the request's identity through at [now]. *)
Definition grants (m : rate_map) (now : Z) (req : request) : Prop :=
  (length (live default_window now (recorded m (clientIp req))) < default_limit)%nat.

(** A [ValidationError] response (status 400). *)
Definition is_validation_error (r : response) : Prop :=
  exists message, r = Failure 400 message (lit "ValidationError") None.

(** The keys of the supported categories. *)
Definition supported_keys : list str := map (fun e => type_key (fst e)) contractTypes.

(** A backend that answers every attempt with the text [raw]. *)
Definition answering (raw : str) : backend :=
  fun _ => Resolved (Some {| message_content := Some (Str raw); text := Str raw |}).

(** A backend that rejects every attempt with the message [m]. *)
Definition rejecting (m : string) : backend :=
  fun _ => Rejected (Throw (lit "Error") (lit m)).

(** A POST request from [ip] with the given body. *)
Definition post (ip : string) (bd : body) : request :=
  {| method := lit "POST"; forwardedFor := Some (lit ip); remoteAddress := None;
     req_body := Some bd |}.

(** The requirements fail the structural precondition: not a string, empty,
    shorter than 10 or longer than 5000 code units. *)
Definition bad_requirements (v : value) : Prop :=
  match v with
  | Str s => (length s < 10)%nat \/ (5000 < length s)%nat
  | _ => True
  end.

(** [validateAndCleanContract] throws. *)
Definition throws {A} (r : result A) : Prop :=
  match r with Err _ => True | Ok _ => False end.

(** One of the bare words of the declaration test occurs. *)
Definition hasDeclarationWord (s : str) : bool :=
  has "contract" s || has "interface" s || has "library" s.

(** What [replace(/\n{3,}/g, '\n\n')] comes to: a line feed followed by two
    more is dropped, so that a run of three or more shrinks to two. *)
Fixpoint squeeze (s : str) : str :=
  match s with
  | [] => []
  | c :: s' =>
      if ascii_eqb c LF && startsWith [LF; LF] s' then squeeze s'
      else c :: squeeze s'
  end.

(** The number of line feeds at the start of a string. *)
Fixpoint lf_run (s : str) : nat :=
  match s with
  | c :: s' => if ascii_eqb c LF then S (lf_run s') else O
  | [] => O
  end.

(** A word that [tidy] cannot cut: it is not empty, holds no line feed, and
    neither starts nor ends with white space. *)
Definition solid (w : str) : bool :=
  match w with
  | [] => false
  | x :: _ =>
      negb (is_space x) && negb (is_space (List.last w x)) &&
      forallb (fun c => negb (ascii_eqb c LF)) w
  end.

(** The number of places at which [p] occurs in [s]. *)
Fixpoint occurrences (p s : str) : nat :=
  (if startsWith p s then 1 else 0)%nat +
  match s with
  | [] => O
  | _ :: s' => occurrences p s'
  end.

(** The provider text whose only declaration keyword is at its very end. *)
Definition trailing_keyword_text : str := lit "import x;" ++ [LF] ++ lit "// library ".

(** A request with acceptable requirements and no explicit category. *)
Definition library_request : request :=
  post "203.0.113.7"
    {| requirements := Str (lit "Write a small helper library");
       contractType := Undefined;
       options := OptionsUndefined |}.

(** A text without line feed. *)
Definition lf_free (w : str) : Prop := Forall (fun c => ascii_eqb c LF = false) w.

(** The lines before a line, each with its line feed, and the lines after
    it, each behind one. *)
Definition before_line (pre : list str) : str := concat (map (fun l => l ++ [LF]) pre).
Definition after_line (post : list str) : str := concat (map (fun l => LF :: l) post).

(** No line feed is followed by two more. *)
Fixpoint calm (s : str) : bool :=
  match s with
  | [] => true
  | c :: s' => negb (ascii_eqb c LF && startsWith [LF; LF] s') && calm s'
  end.

(** A text without the license marker from which removing the fence makes
    one. *)
Definition split_marker_text : str :=
  lit "// SPDX-License-```Identifier: GPL-3.0" ++ [LF] ++ lit "contract A {}".

(** A small contract, as a provider might return it. *)
Definition plain_contract : str := lit "contract A {}".

(** What the sanitizer makes of [plain_contract]. *)
Definition plain_contract_clean : str :=
  default_license ++ [LF] ++ default_pragma ++ [LF] ++ plain_contract.

(** A request that names a category the service does not know. *)
Definition raffle_request : request :=
  post "203.0.113.7"
    {| requirements := Str (lit "Build a raffle for my community");
       contractType := Str (lit "lottery");
       options := OptionsUndefined |}.

Definition raffle_contract : str := lit "contract Raffle {}".

(** * Further notions *)

(** The position of a category in the declared order. *)
Definition rank (t : contract_type) : nat :=
  match t with
  | erc20 => 0 | erc721 => 1 | multisig => 2 | crowdfunding => 3
  | defi => 4 | governance => 5 | custom => 6
  end.

(** The position of the first entry one of whose keywords occurs, the number
    of entries when there is none. *)
Fixpoint first_hit (text : str) (entries : list (contract_type * type_config)) : nat :=
  match entries with
  | [] => O
  | (_, config) :: rest =>
      if scan_keywords text (keywords config) then O else S (first_hit text rest)
  end.

(** Checks of several identities, one per pair of an identity and a time. *)
Fixpoint run_checks (m : rate_map) (limit : nat) (window : Z)
    (calls : list (str * Z)) : rate_map :=
  match calls with
  | [] => m
  | (ip, now) :: rest =>
      run_checks (snd (checkRateLimit m now ip limit window)) limit window rest
  end.

(** The number of POSTs and the time slept in a list of events. *)
Fixpoint posts (evs : list event) : nat :=
  match evs with
  | [] => O
  | Post _ _ :: rest => S (posts rest)
  | Delay _ :: rest => posts rest
  end.

Fixpoint slept (evs : list event) : Z :=
  match evs with
  | [] => 0
  | Post _ _ :: rest => slept rest
  | Delay ms :: rest => ms + slept rest
  end.

(** The events of [count] failed attempts numbered from [first]: what each
    attempt does, and a wait after each of them but the last. *)
Fixpoint trace (svc : LLMService) (b : backend) (count first : nat) : list event :=
  match count with
  | O => []
  | S c =>
      fst (attempt_once svc b first) ++
      match c with
      | O => []
      | S _ => Delay (2 ^ Z.of_nat first * 1000) :: trace svc b c (S first)
      end
  end.

(** The error [generateContract] throws after the last failure [e]. *)
Definition exhausted (svc : LLMService) (e : exn) : exn :=
  Throw (lit "Error")
    (lit "LLM generation failed after " ++ of_nat (maxRetries svc) ++
     lit " attempts: " ++ exn_message e).

(** Requests served one after the other, each at its time with its backend;
    the map is handed from one to the next. *)
Fixpoint serve (m : rate_map) (env : option str)
    (calls : list (Z * backend * request)) : list (response * list event) * rate_map :=
  match calls with
  | [] => ([], m)
  | (now, b, req) :: rest =>
      let '(resp, m1, evs) := handler m now env b req in
      let '(outs, m2) := serve m1 env rest in
      ((resp, evs) :: outs, m2)
  end.

(** The 429 answer. *)
Definition too_many_requests : response :=
  Failure 429 (lit "Too many requests. Please try again later.")
    (lit "RateLimitExceeded") None.

(** The 405 answer. *)
Definition method_not_allowed : response :=
  Failure 405 (lit "Method not allowed") (lit "MethodNotAllowed") None.

(** ** The earlier version of the generation function

    The file holds two versions of the generation function.  The earlier one
    differs in [validateAndCleanContract], which has no narrative removal:
    it strips the fences and goes on with the license and pragma steps. *)

Module Earlier.

Definition validateAndCleanContract (contractCode : value) : result str :=
  match contractCode with
  | Str (c :: s) =>
      let cleaned := replaceAll fence_plain [] (replaceAll fence_solidity [] (c :: s)) in
      let cleaned := ensurePragma (ensureLicense cleaned) in
      if negb (hasDeclaration cleaned) then Err no_contract
      else Ok (tidy cleaned)
  | _ => Err invalid_code
  end.

End Earlier.

(** ** The function that lists the supported contract types *)

Module TypesApi.

Record type_entry := {
  type : str;
  name : str;
  description : str;
  keywords : list str;
  examples : list str
}.

Definition contractTypes : list type_entry :=
  [ {| type := lit "erc20"; name := lit "ERC-20 Token";
       description := lit "Standard fungible token contract";
       keywords := map lit ["token"; "erc20"; "coin"; "currency"; "payment"]%string;
       examples := map lit
         ["Create a utility token for my gaming platform";
          "Generate an ERC-20 token with 1 million supply";
          "Build a payment token with burn functionality"]%string |};
    {| type := lit "erc721"; name := lit "ERC-721 NFT";
       description := lit "Non-fungible token contract";
       keywords := map lit ["nft"; "collectible"; "art"; "unique"; "non-fungible"]%string;
       examples := map lit
         ["Create an NFT collection for digital art";
          "Build a collectible card game NFT contract";
          "Generate an NFT contract with royalties"]%string |};
    {| type := lit "multisig"; name := lit "Multi-Signature Wallet";
       description := lit "Multi-signature wallet contract";
       keywords := map lit ["multisig"; "multi-signature"; "wallet"; "governance"; "voting"]%string;
       examples := map lit
         ["Create a 3-of-5 multisig wallet for team treasury";
          "Build a governance multisig with timelock";
          "Generate a secure wallet requiring multiple approvals"]%string |};
    {| type := lit "crowdfunding"; name := lit "Crowdfunding";
       description := lit "Crowdfunding and fundraising contract";
       keywords := map lit ["crowdfunding"; "fundraising"; "ico"; "investment"]%string;
       examples := map lit
         ["Create a crowdfunding contract for startup funding";
          "Build an ICO contract with token distribution";
          "Generate a fundraising contract with refunds"]%string |};
    {| type := lit "defi"; name := lit "DeFi Protocol";
       description := lit "Decentralized finance protocol contract";
       keywords := map lit ["defi"; "lending"; "staking"; "yield"; "liquidity"]%string;
       examples := map lit
         ["Create a staking contract with rewards";
          "Build a lending protocol with interest";
          "Generate a yield farming contract"]%string |};
    {| type := lit "governance"; name := lit "Governance";
       description := lit "DAO governance contract";
       keywords := map lit ["dao"; "governance"; "voting"; "proposal"; "democracy"]%string;
       examples := map lit
         ["Create a DAO governance contract with voting";
          "Build a proposal system with timelock";
          "Generate a democratic voting mechanism"]%string |};
    {| type := lit "custom"; name := lit "Custom Contract";
       description := lit "Custom smart contract based on specific requirements";
       keywords := map lit ["custom"; "specific"; "tailored"; "bespoke"]%string;
       examples := map lit
         ["Create a custom business logic contract";
          "Build a specific use case smart contract";
          "Generate a tailored solution for my needs"]%string |} ].

(** The JSON sent back; the [timestamp] fields are left out. *)
Inductive response :=
  | Ended (status : nat)
  | Refused (status : nat) (message type : str)
  | Listed (data : list type_entry) (total : nat).

Definition handler (method : str) : response :=
  if str_eqb method (lit "OPTIONS") then Ended 200
  else if negb (str_eqb method (lit "GET")) then
    Refused 405 (lit "Method not allowed") (lit "MethodNotAllowed")
  else Listed contractTypes (length contractTypes).

End TypesApi.

(** ** [ContractGenerator], the browser side *)

Module Frontend.

(** What [detectContractType] reads of an entry of [supportedTypes]. *)
Record type_info := { type : str; keywords : list str }.

Definition of_entry (e : TypesApi.type_entry) : type_info :=
  {| type := TypesApi.type e; keywords := TypesApi.keywords e |}.

(** The "basic types" of the [catch] clause. *)
Definition fallback_types : list type_info :=
  [ {| type := lit "erc20"; keywords := map lit ["token"; "erc20"; "coin"]%string |};
    {| type := lit "erc721"; keywords := map lit ["nft"; "collectible"; "art"]%string |};
    {| type := lit "custom"; keywords := map lit ["custom"; "specific"]%string |} ].

(** What [fetch] of the types and [response.json()] come to. *)
Inductive fetched :=
  | FetchFailed                                     (* either of them throws *)
  | Fetched (success : bool) (data : list type_info).
                                      (* [data.success] as a boolean, [data.data] *)

(** [this.supportedTypes] after [initializeSupportedTypes], [None] for
    [null]. *)
Definition initializeSupportedTypes (f : fetched) : option (list type_info) :=
  match f with
  | FetchFailed => Some fallback_types
  | Fetched true data => Some data
  | Fetched false _ => None
  end.

Fixpoint scan_keywords (text : str) (kws : list str) : bool :=
  match kws with
  | [] => false
  | keyword :: rest => if includes keyword text then true else scan_keywords text rest
  end.

Fixpoint scan_types (text : str) (types : list type_info) : option str :=
  match types with
  | [] => None
  | typeInfo :: rest =>
      if scan_keywords text (keywords typeInfo) then Some (type typeInfo)
      else scan_types text rest
  end.

Definition detectContractType (supportedTypes : option (list type_info))
    (requirements : str) : str :=
  match supportedTypes with
  | None => lit "custom"
  | Some types =>
      match scan_types (toLowerCase requirements) types with
      | Some t => t
      | None => lit "custom"
      end
  end.

(** The [contractType] field of the body [generateContract] posts, [None]
    when the field is not set. *)
Definition request_contractType (supportedTypes : option (list type_info))
    (requirements : str) : option str :=
  let detectedType := detectContractType supportedTypes requirements in
  match detectedType with
  | [] => None
  | _ => if negb (str_eqb detectedType (lit "custom")) then Some detectedType else None
  end.

(** The body [generateContract] posts, as the generation function reads it
    after [JSON.stringify] and the parsing of the request: the options are
    always an object, whose fields other than [maxTokens] and [temperature]
    are the caller's. *)
Definition request_body (supportedTypes : option (list type_info))
    (requirements : str) (fields : option_fields) : body :=
  {| Api.requirements := Str requirements;
     contractType :=
       match request_contractType supportedTypes requirements with
       | Some detectedType => Str detectedType
       | None => Undefined
       end;
     options := OptionsValue fields |}.

(** What the browser reads of the answer of the types function: a JSON body
    with [success] and [data], no [success] in a refusal, and no body at all
    after [end()], on which [response.json()] throws. *)
Definition fetch_types (r : TypesApi.response) : fetched :=
  match r with
  | TypesApi.Listed data _ => Fetched true (map of_entry data)
  | TypesApi.Refused _ _ _ => Fetched false []
  | TypesApi.Ended _ => FetchFailed
  end.

End Frontend.

(** The number of backticks at the start of a string. *)
Fixpoint backticks (s : str) : nat :=
  match s with
  | c :: s' => if ascii_eqb c "`" then S (backticks s') else O
  | [] => O
  end.

(** The fence delimiter. *)
Definition fence : str := lit "```".

(** Every record of the map is non-empty and within the limit. *)
Definition well_kept (limit : nat) (m : rate_map) : Prop :=
  forall ip r, m !! ip = Some r -> r <> [] /\ (length r <= limit)%nat.

(** A provider that is neither of the two the gateway knows. *)
Definition unknown_provider (svc : LLMService) : Prop :=
  str_eqb (provider svc) (lit "openai") = false /\
  str_eqb (provider svc) (lit "anthropic") = false.

(** What an attempt with such a provider throws. *)
Definition unsupported_error (svc : LLMService) : exn :=
  Throw (lit "Error") (lit "Unsupported LLM provider: " ++ provider svc).

(** POST requests of one identity. *)
Definition from_identity (ip : str) (calls : list (Z * backend * request)) : Prop :=
  Forall (fun c => method (snd c) = lit "POST" /\ clientIp (snd c) = ip) calls.

(** The times at which they are served. *)
Definition times_of (calls : list (Z * backend * request)) : list Z :=
  map (fun c => fst (fst c)) calls.

(** The handler can log the category and the prompt builders can build
    their prompts: no conversion to a string throws, and the options can be
    read. *)
Definition prompts_built (bd : body) (reqs : str) : Prop :=
  log_exn (contractType bd) = None /\
  prompt_exn (detectedType bd reqs) (options bd) = None.

(** The request gets as far as the provider: it is a POST the governor lets
    through, with requirements of 10 to 5000 code units, and a category and
    options with which the prompts can be built. *)
Definition reaches_provider (m : rate_map) (now : Z) (req : request) (reqs : str) : Prop :=
  method req = lit "POST" /\ grants m now req /\
  exists bd, req_body req = Some bd /\
    requirements bd = Str reqs /\ (10 <= length reqs <= 5000)%nat /\
    prompts_built bd reqs.

(** A line with which Solidity code may start. *)
Definition code_start (line : str) : Prop :=
  starts "// SPDX-License-Identifier:" (trim line) = true \/
  starts "pragma solidity" (trim line) = true \/
  starts "import " (trim line) = true \/
  test_start declaration_re (trim line) = true.

(** The table the browser holds after a successful fetch. *)
Definition served_types : list Frontend.type_info :=
  map Frontend.of_entry TypesApi.contractTypes.

(** ** [HistoryManager], the paging of the stored results

    The numbers of this class are counts and page numbers; they are modelled
    as integers, and [Math.ceil(a / b)] is written out for [a >= 0] and
    [b >= 1], where the quotient of the two doubles has the ceiling of the
    exact quotient. *)

Module History.

Record item := { order : Z; message : str; code : str }.

Record HistoryManager := {
  currentPage : Z;
  itemsPerPage : Z;
  totalItems : Z;
  data : list item
}.

(** [Math.ceil(a / b)] for [0 <= a] and [1 <= b]. *)
Definition ceil_div (a b : Z) : Z := (a + b - 1) / b.

(** [array.slice(start, end)]: a negative index counts from the end, and
    both are clamped to the array. *)
Definition slice {A} (start end_ : Z) (l : list A) : list A :=
  let len := Z.of_nat (length l) in
  let from := if start <? 0 then Z.max (len + start) 0 else Z.min start len in
  let to := if end_ <? 0 then Z.max (len + end_) 0 else Z.min end_ len in
  take (Z.to_nat (to - from)) (drop (Z.to_nat from) l).

(** The body of the [forEach] of [loadData] over the keys from [index] on;
    [storage] lists the keys of [localStorage] with their values in the order
    of [Object.keys]. *)
Fixpoint load_from (index : Z) (storage : list (str * str)) : list item :=
  match storage with
  | [] => []
  | (key, value) :: rest =>
      if negb (str_eqb key (lit "web3AuthData")) then
        {| order := index; message := key; code := value |} :: load_from (index + 1) rest
      else load_from index rest
  end.

Definition loadData (h : HistoryManager) (storage : list (str * str)) : HistoryManager :=
  let data := load_from 1 storage in
  {| currentPage := currentPage h; itemsPerPage := itemsPerPage h;
     totalItems := Z.of_nat (length data); data := data |}.

(** The constructor. *)
Definition new_HistoryManager (storage : list (str * str)) : HistoryManager :=
  loadData {| currentPage := 1; itemsPerPage := 5; totalItems := 0; data := [] |} storage.

Definition getPaginatedData (h : HistoryManager) : list item :=
  let startIndex := (currentPage h - 1) * itemsPerPage h in
  let endIndex := startIndex + itemsPerPage h in
  slice startIndex endIndex (data h).

Definition setPage (h : HistoryManager) (page : Z) : HistoryManager :=
  let maxPage := ceil_div (totalItems h) (itemsPerPage h) in
  {| currentPage := if maxPage <? page then maxPage
                    else if page <? 1 then 1
                    else page;
     itemsPerPage := itemsPerPage h; totalItems := totalItems h; data := data h |}.

Definition setItemsPerPage (h : HistoryManager) (items : Z) : HistoryManager :=
  {| currentPage := 1; itemsPerPage := items; totalItems := totalItems h; data := data h |}.

Definition getTotalPages (h : HistoryManager) : Z :=
  ceil_div (totalItems h) (itemsPerPage h).

End History.

(** The manager's count is the length of its data, and a page holds at
    least one item. *)
Definition history_ok (h : History.HistoryManager) : Prop :=
  History.totalItems h = Z.of_nat (length (History.data h)) /\
  1 <= History.itemsPerPage h.

(** The pages from [page] on, [count] of them. *)
Fixpoint pages_from (h : History.HistoryManager) (page : Z) (count : nat)
    : list History.item :=
  match count with
  | O => []
  | S c =>
      History.getPaginatedData (History.setPage h page) ++ pages_from h (page + 1) c
  end.

(** ** Inputs of the examples *)

(** A GET request. *)
Definition get_request : request :=
  {| method := lit "GET"; forwardedFor := Some (lit "203.0.113.7"); remoteAddress := None;
     req_body := None |}.

(** A POST request whose requirements are too short. *)
Definition short_request : request :=
  post "203.0.113.7"
    {| requirements := Str (lit "too short"); contractType := Undefined;
       options := OptionsUndefined |}.

(** Ten such requests, a second apart. *)
Definition ten_requests : list (Z * backend * request) :=
  map (fun now => (now, rejecting "down", short_request))
    [0; 1000; 2000; 3000; 4000; 5000; 6000; 7000; 8000; 9000].

(** A record of ten times. *)
Definition ten_times : list Z := [0; 1; 2; 3; 4; 5; 6; 7; 8; 9].

(** A contract in a code fence. *)
Definition fenced_contract : str :=
  lit "```solidity" ++ [LF] ++ plain_contract ++ [LF] ++ lit "```".

(** What the browser may hold in [supportedTypes] when it talks to the types
    function above: nothing (the answer has not come, or was a refusal), the
    basic types of the [catch] clause, or the served table. *)
Definition browser_types (supportedTypes : option (list Frontend.type_info)) : Prop :=
  supportedTypes = None \/
  supportedTypes = Some Frontend.fallback_types \/
  supportedTypes = Some served_types.

(** Options without any of the fields the prompt builder reads. *)
Definition no_fields : option_fields :=
  {| tokenName := Undefined; tokenSymbol := Undefined; initialSupply := Undefined;
     additionalFeatures := FeaturesNone |}.

(** A request of the browser. *)
Definition browser_request (supportedTypes : option (list Frontend.type_info))
    (ip : string) (requirements : str) (fields : option_fields) : request :=
  post ip (Frontend.request_body supportedTypes requirements fields).

(** A history of seven stored results, beside the login data. *)
Definition seven_items : History.HistoryManager :=
  History.new_HistoryManager
    (map (fun k => (lit k, lit "contract A {}"))
       ["a"; "b"; "web3AuthData"; "c"; "d"; "e"; "f"; "g"]%string).

(** * Properties *)

(** An identity without record is let through. *)
Ltac fresh_identity :=
  unfold grants, recorded; rewrite lookup_empty; simpl; unfold default_limit; lia.

(** ** Strings *)

Lemma ascii_eqb_eq a b : ascii_eqb a b = true <-> a = b.
Proof. apply Ascii.eqb_eq. Qed.

Lemma ascii_eqb_refl a : ascii_eqb a a = true.
Proof. now apply ascii_eqb_eq. Qed.

Lemma ascii_eqb_neq a b : ascii_eqb a b = false <-> a <> b.
Proof. apply Ascii.eqb_neq. Qed.

Lemma startsWith_app p s : startsWith p (p ++ s) = true.
Proof. induction p as [|x p IH]; simpl; [reflexivity|]. now rewrite ascii_eqb_refl. Qed.

Lemma startsWith_inv p : forall s, startsWith p s = true -> exists t, s = p ++ t.
Proof.
  induction p as [|x p IH]; intros s H; simpl in *.
  - now exists s.
  - destruct s as [|y s]; [discriminate|].
    apply andb_true_iff in H as [Hxy Hp]. apply ascii_eqb_eq in Hxy. subst y.
    destruct (IH s Hp) as [t ->]. now exists t.
Qed.

Lemma includes_eq p s :
  includes p s =
    startsWith p s || match s with [] => false | _ :: s' => includes p s' end.
Proof. destruct s; reflexivity. Qed.

Lemma includes_cons p x s :
  includes p (x :: s) = startsWith p (x :: s) || includes p s.
Proof. reflexivity. Qed.

Lemma includes_app p a b : includes p (a ++ p ++ b) = true.
Proof.
  induction a as [|x a IH].
  - rewrite includes_eq. change ([] ++ p ++ b) with (p ++ b).
    now rewrite startsWith_app.
  - change ((x :: a) ++ p ++ b) with (x :: (a ++ p ++ b)).
    rewrite includes_cons, IH. apply orb_true_r.
Qed.

Lemma includes_inv p : forall s, includes p s = true -> exists a b, s = a ++ p ++ b.
Proof.
  induction s as [|x s IH]; simpl; intros H.
  - rewrite orb_false_r in H. apply startsWith_inv in H as [t Ht].
    now exists [], t.
  - apply orb_true_iff in H as [H|H].
    + apply startsWith_inv in H as [t Ht]. now exists [], t.
    + destruct (IH H) as (a & b & ->). now exists (x :: a), b.
Qed.

(** A text that holds [p ++ q] holds [p]. *)
Lemma includes_shorter p q s : includes (p ++ q) s = true -> includes p s = true.
Proof.
  intros H. apply includes_inv in H as (a & b & ->).
  rewrite <- app_assoc. apply includes_app.
Qed.

(** ** Category classifier *)

Lemma scan_keywords_spec text kws :
  scan_keywords text kws = true <-> Exists (fun k => includes k text = true) kws.
Proof.
  induction kws as [|k kws IH]; simpl.
  - split; [discriminate | intros H; inversion H].
  - destruct (includes k text) eqn:Hk.
    + split; [intros _; now constructor | reflexivity].
    + rewrite IH. split; [now constructor 2 |].
      intros H; inversion H; subst; [congruence | assumption].
Qed.

Lemma scan_types_some text entries t :
  scan_types text entries = Some t ->
  exists pre config post,
    entries = pre ++ (t, config) :: post /\
    category_hit text config /\
    Forall (fun e => ~ category_hit text (snd e)) pre.
Proof.
  induction entries as [|[t0 c0] entries IH]; simpl; [discriminate|].
  destruct (scan_keywords text (keywords c0)) eqn:Hs.
  - intros [= <-]. exists [], c0, entries. split; [reflexivity|].
    split; [now apply scan_keywords_spec | constructor].
  - intros H. destruct (IH H) as (pre & config & post & -> & Hhit & Hpre).
    exists ((t0, c0) :: pre), config, post. split; [reflexivity|].
    split; [assumption|]. constructor; [|assumption].
    simpl. unfold category_hit. rewrite <- scan_keywords_spec. congruence.
Qed.

Lemma scan_types_none text entries :
  scan_types text entries = None ->
  Forall (fun e => ~ category_hit text (snd e)) entries.
Proof.
  induction entries as [|[t0 c0] entries IH]; simpl; [constructor|].
  destruct (scan_keywords text (keywords c0)) eqn:Hs; [discriminate|].
  intros H. constructor; [|now apply IH].
  simpl. unfold category_hit. rewrite <- scan_keywords_spec. congruence.
Qed.

(** C2: [detectContractType] lower-cases the requirements and returns the
    first category, in the declared order erc20, erc721, multisig,
    crowdfunding, defi, governance, custom, one of whose keywords occurs in
    the lowered text: every category declared before the returned one has no
    keyword in the text, however many keywords of a later category occur.
    When no category has a keyword in the text the result is [custom]. *)
Theorem detectContractType_first_match (requirements : str) :
  let text := toLowerCase requirements in
  map fst contractTypes =
    [erc20; erc721; multisig; crowdfunding; defi; governance; custom] /\
  ((exists pre config post,
      contractTypes = pre ++ (detectContractType requirements, config) :: post /\
      category_hit text config /\
      Forall (fun e => ~ category_hit text (snd e)) pre)
   \/
   (detectContractType requirements = custom /\
    Forall (fun e => ~ category_hit text (snd e)) contractTypes)).
Proof.
  intros text. split; [reflexivity|].
  unfold detectContractType. fold text.
  destruct (scan_types text contractTypes) as [t|] eqn:Hscan.
  - left. now apply scan_types_some.
  - right. split; [reflexivity | now apply scan_types_none].
Qed.

(** Two categories match ("voting" is a multisig keyword, "dao" and
    "proposal" are governance keywords): the earlier one is returned. *)
Example detect_earlier_wins :
  detectContractType (lit "A DAO with proposal Voting") = multisig.
Proof. vm_compute. reflexivity. Qed.

Example detect_scenario_1 :
  detectContractType
    (lit "Create a utility token with 1,000,000 supply called FooCoin (FOO)") = erc20.
Proof. vm_compute. reflexivity. Qed.

Example detect_no_keyword : detectContractType (lit "Hello world") = custom.
Proof. vm_compute. reflexivity. Qed.

(** ** Provider gateway *)

Lemma attempt_once_events svc b k :
  supported svc -> fst (attempt_once svc b k) = [Post (provider svc) k].
Proof.
  intros [H|H]; unfold attempt_once; rewrite H; reflexivity.
Qed.

Lemma retry_loop_step svc b left a :
  retry_loop svc b (S left) a =
    let '(evs, r) := attempt_once svc b a in
    match r with
    | Ok v => (evs, Ok v)
    | Err error =>
        if (a =? maxRetries svc)%nat then
          (evs, Err (Throw (lit "Error")
                       (lit "LLM generation failed after " ++ of_nat (maxRetries svc) ++
                        lit " attempts: " ++ exn_message error)))
        else
          let '(evs', r') := retry_loop svc b left (S a) in
          (evs ++ Delay (2 ^ Z.of_nat a * 1000) :: evs', r')
    end.
Proof. reflexivity. Qed.


Lemma answers_with_ok svc b k v :
  answers_with svc b k v -> snd (attempt_once svc b k) = Ok v.
Proof.
  intros (first & Hb & [[Hs Hv]|[Hs Hv]]);
    unfold attempt_once, callOpenAI, callAnthropic; rewrite Hs, Hb; cbn [snd].
  - change (str_eqb (lit "openai") (lit "openai")) with true. cbv iota. cbn [snd].
    now rewrite Hv.
  - change (str_eqb (lit "anthropic") (lit "openai")) with false.
    change (str_eqb (lit "anthropic") (lit "anthropic")) with true. cbv iota. cbn [snd].
    now rewrite Hv.
Qed.






(** ** Request governor *)

Lemma filter_keep_all {A} (P : A -> Prop) `{forall x, Decision (P x)} (l : list A) :
  (forall x, x ∈ l -> P x) -> filter P l = l.
Proof.
  induction l as [|x l IH]; intros Hall; [reflexivity|].
  rewrite filter_cons_True by (apply Hall; left).
  f_equal. apply IH. intros y Hy. apply Hall. now right.
Qed.

Lemma filter_drop_all {A} (P : A -> Prop) `{forall x, Decision (P x)} (l : list A) :
  (forall x, x ∈ l -> ~ P x) -> filter P l = [].
Proof.
  induction l as [|x l IH]; intros Hall; [reflexivity|].
  rewrite filter_cons_False by (apply Hall; left).
  apply IH. intros y Hy. apply Hall. now right.
Qed.

Section OneIdentity.

(** One identity checked against one limit and window. *)
Context (ip : str) (limit : nat) (window : Z).

Lemma checkRateLimit_grant (m : rate_map) (now : Z) :
  (length (live window now (recorded m ip)) < limit)%nat ->
  checkRateLimit m now ip limit window =
    (true, <[ip := live window now (recorded m ip) ++ [now]]> m).
Proof.
  intros Hlt. unfold checkRateLimit. fold (recorded m ip).
  fold (live window now (recorded m ip)).
  destruct (Nat.leb_spec limit (length (live window now (recorded m ip))));
    [lia | reflexivity].
Qed.

Lemma checkRateLimit_reject (m : rate_map) (now : Z) :
  (limit <= length (live window now (recorded m ip)))%nat ->
  checkRateLimit m now ip limit window = (false, m).
Proof.
  intros Hle. unfold checkRateLimit. fold (recorded m ip).
  fold (live window now (recorded m ip)).
  destruct (Nat.leb_spec limit (length (live window now (recorded m ip))));
    [reflexivity | lia].
Qed.

Lemma live_all now r :
  (forall t, t ∈ r -> now - t < window) -> live window now r = r.
Proof. apply filter_keep_all. Qed.

Lemma live_none now r :
  (forall t, t ∈ r -> window <= now - t) -> live window now r = [].
Proof. intros H. apply filter_drop_all. intros t Ht. specialize (H t Ht). lia. Qed.

(** Checks at times that all see the whole record [r] as live and leave room
    under the limit all pass, and the record grows by these times. *)
Lemma checks_all_granted (times : list Z) :
  forall (m : rate_map),
  (forall t now, t ∈ recorded m ip -> now ∈ times -> now - t < window) ->
  in_one_window window times ->
  (length (recorded m ip) + length times <= limit)%nat ->
  fst (checks m ip limit window times) = repeat true (length times) /\
  recorded (snd (checks m ip limit window times)) ip = recorded m ip ++ times.
Proof.
  induction times as [|now rest IH]; intros m Hlive Hwin Hlen.
  - simpl. now rewrite app_nil_r.
  - assert (Hall : live window now (recorded m ip) = recorded m ip).
    { apply live_all. intros t Ht. apply Hlive; [assumption | left]. }
    cbn [checks]. rewrite checkRateLimit_grant by (rewrite Hall; simpl in Hlen; lia).
    rewrite Hall.
    set (m1 := <[ip := recorded m ip ++ [now]]> m).
    assert (Hrec : recorded m1 ip = recorded m ip ++ [now]).
    { unfold recorded at 1, m1. now rewrite lookup_insert_eq. }
    destruct (IH m1) as [Hb Hr].
    + intros t now' Ht Hnow'. rewrite Hrec in Ht.
      apply elem_of_app in Ht as [Ht|Ht].
      * apply Hlive; [assumption | now right].
      * apply list_elem_of_singleton in Ht. subst t.
        apply Hwin; [left | now right].
    + intros t1 t2 H1 H2. apply Hwin; now right.
    + rewrite Hrec, length_app. simpl in *. lia.
    + destruct (checks m1 ip limit window rest) as [bs m2]. simpl in *.
      rewrite Hb, Hr, Hrec, <- app_assoc. now split.
Qed.

(** The same from a record whose times have all left the window. *)
Lemma checks_fresh (times : list Z) (m : rate_map) :
  elapsed window (recorded m ip) times ->
  in_one_window window times ->
  (length times <= limit)%nat ->
  fst (checks m ip limit window times) = repeat true (length times) /\
  (times <> [] -> recorded (snd (checks m ip limit window times)) ip = times).
Proof.
  intros Hold Hwin Hlen. destruct times as [|now rest]; [now split|].
  assert (Hnone : live window now (recorded m ip) = []).
  { apply live_none. intros t Ht. apply (Hold t now Ht). left. }
  cbn [checks]. rewrite checkRateLimit_grant by (rewrite Hnone; simpl in *; lia).
  rewrite Hnone. simpl app.
  set (m1 := <[ip := [now]]> m).
  assert (Hrec : recorded m1 ip = [now]).
  { unfold recorded, m1. now rewrite lookup_insert_eq. }
  destruct (checks_all_granted rest m1) as [Hb Hr].
  - intros t now' Ht Hnow'. rewrite Hrec in Ht.
    apply list_elem_of_singleton in Ht. subst t. apply Hwin; [left | now right].
  - intros t1 t2 H1 H2. apply Hwin; now right.
  - rewrite Hrec. simpl in *. lia.
  - destruct (checks m1 ip limit window rest) as [bs m2]. simpl in *.
    rewrite Hb, Hr, Hrec. now split.
Qed.

Lemma checks_app (t1 t2 : list Z) (m : rate_map) :
  checks m ip limit window (t1 ++ t2) =
    let '(b1, m1) := checks m ip limit window t1 in
    let '(b2, m2) := checks m1 ip limit window t2 in
    (b1 ++ b2, m2).
Proof.
  revert m. induction t1 as [|now rest IH]; intros m.
  - simpl. now destruct (checks m ip limit window t2).
  - cbn [checks app]. destruct (checkRateLimit m now ip limit window) as [b m1].
    rewrite IH. destruct (checks m1 ip limit window rest) as [b1 m2].
    now destruct (checks m2 ip limit window t2).
Qed.

End OneIdentity.

(** C4: for one identity whose record holds nothing of the current window,
    checks at times that lie in one window all pass as long as there
    are at most [limit] of them; with [limit + 1] of them the last one is
    rejected; and a check made when every recorded time is a window or more
    back passes again (for a limit of at least one).  The defaults are a
    limit of 10 and a window of 15 minutes. *)
Theorem checkRateLimit_sliding_window (m : rate_map) (ip : str) (limit : nat)
    (window : Z) (times : list Z) :
  elapsed window (recorded m ip) times ->
  in_one_window window times ->
  ((length times <= limit)%nat ->
     fst (checks m ip limit window times) = repeat true (length times)) /\
  (length times = S limit ->
     fst (checks m ip limit window times) = repeat true limit ++ [false]) /\
  (forall (m' : rate_map) later,
     (0 < limit)%nat -> elapsed window (recorded m' ip) [later] ->
     fst (checkRateLimit m' later ip limit window) = true) /\
  default_limit = 10%nat /\ default_window = 15 * 60 * 1000.
Proof.
  intros Hold Hwin. repeat split.
  - intros Hlen. now apply checks_fresh.
  - intros Hlen.
    destruct (exists_last (l := times)) as (ts & t' & ->);
      [intros ->; discriminate|].
    rewrite length_app in Hlen. simpl in Hlen.
    assert (Hts : length ts = limit) by lia.
    destruct (checks_fresh ip limit window ts m) as [Hb Hr].
    { intros t now Ht Hnow. apply Hold; [assumption|]. apply elem_of_app. now left. }
    { intros t1 t2 H1 H2. apply Hwin; apply elem_of_app; now left. }
    { lia. }
    rewrite checks_app. destruct (checks m ip limit window ts) as [b1 m1].
    simpl in Hb, Hr. cbn [checks].
    rewrite checkRateLimit_reject; [simpl; now rewrite Hb, Hts|].
    destruct ts as [|t0 ts0].
    + simpl in Hts. subst limit. lia.
    + rewrite Hr by discriminate.
      rewrite live_all; [lia|].
      intros t Ht. apply Hwin; apply elem_of_app; [now left | right; left].
  - intros m' later Hpos Hgone.
    rewrite checkRateLimit_grant; [reflexivity|].
    rewrite live_none; [simpl; lia|].
    intros t Ht. apply (Hgone t later Ht). left.
Qed.

(** C9: a rejected check leaves [rateLimitMap] as it was; the record of the
    identity is not even pruned, and no time is recorded. *)
Theorem checkRateLimit_reject_frame (m : rate_map) (now : Z) (ip : str)
    (limit : nat) (window : Z) :
  fst (checkRateLimit m now ip limit window) = false ->
  snd (checkRateLimit m now ip limit window) = m /\
  recorded (snd (checkRateLimit m now ip limit window)) ip = recorded m ip.
Proof.
  unfold checkRateLimit.
  destruct (limit <=? _)%nat; simpl; [now split | discriminate].
Qed.

(** Three checks in three seconds from a fresh map: all pass under a
    limit of 10, the third rejected under a limit of 2. *)
Lemma checkRateLimit_sliding_window_witness :
  fst (checks ∅ (lit "203.0.113.7") 10 default_window [0; 1000; 2000]) =
    [true; true; true] /\
  fst (checks ∅ (lit "203.0.113.7") 2 default_window [0; 1000; 2000]) =
    [true; true; false].
Proof.
  assert (Hold : elapsed default_window (recorded ∅ (lit "203.0.113.7")) [0; 1000; 2000]).
  { intros t now Ht. unfold recorded in Ht. rewrite lookup_empty in Ht.
    simpl in Ht. now apply not_elem_of_nil in Ht. }
  assert (Hwin : in_one_window default_window [0; 1000; 2000]).
  { intros t1 t2 H1 H2. unfold default_window.
    repeat (apply elem_of_cons in H1 as [->|H1]);
      [| | |now apply not_elem_of_nil in H1];
      repeat (apply elem_of_cons in H2 as [->|H2]);
      try (now apply not_elem_of_nil in H2); lia. }
  split.
  - apply (checkRateLimit_sliding_window ∅ (lit "203.0.113.7") 10 default_window
             [0; 1000; 2000] Hold Hwin).
    simpl. lia.
  - apply (checkRateLimit_sliding_window ∅ (lit "203.0.113.7") 2 default_window
             [0; 1000; 2000] Hold Hwin).
    reflexivity.
Defined.

(** A rejected check: one recorded time still in the window, limit 1. *)
Lemma checkRateLimit_reject_frame_witness :
  snd (checkRateLimit {[ lit "203.0.113.7" := [0] ]} 5 (lit "203.0.113.7") 1 10) =
    {[ lit "203.0.113.7" := [0] ]}.
Proof.
  apply (checkRateLimit_reject_frame {[ lit "203.0.113.7" := [0] ]} 5
           (lit "203.0.113.7") 1 10).
  rewrite checkRateLimit_reject; [reflexivity|].
  unfold recorded. rewrite lookup_singleton_eq. simpl. vm_compute. lia.
Defined.


(** ** Request handler *)

Lemma handler_post (m : rate_map) now env b req :
  method req = lit "POST" ->
  grants m now req ->
  handler m now env b req =
    let m1 := <[clientIp req := live default_window now (recorded m (clientIp req)) ++ [now]]> m in
    match req_body req with
    | None =>
        (caught (type_error "Cannot destructure property 'requirements' of 'req.body' as it is undefined."),
         m1, [])
    | Some bd =>
        match requirements_text (requirements bd) with
        | None => (validation_error "Requirements must be at least 10 characters long", m1, [])
        | Some reqs =>
            if (5000 <? length reqs)%nat then
              (validation_error "Requirements must not exceed 5000 characters", m1, [])
            else
              match log_exn (contractType bd) with
              | Some e => (caught e, m1, [])
              | None =>
                  match prompt_exn (detectedType bd reqs) (options bd) with
                  | Some e => (caught e, m1, [])
                  | None =>
                      let '(evs, generated) := generateContract (new_LLMService env) b in
                      match generated with
                      | Err e => (caught e, m1, evs)
                      | Ok generatedContract =>
                          match validateAndCleanContract generatedContract with
                          | Err e => (caught e, m1, evs)
                          | Ok cleanedContract =>
                              (Success cleanedContract (detectedType bd reqs), m1, evs)
                          end
                      end
                  end
              end
        end
    end.
Proof.
  intros Hm Hadm. unfold handler. rewrite Hm.
  change (str_eqb (lit "POST") (lit "OPTIONS")) with false.
  change (str_eqb (lit "POST") (lit "POST")) with true.
  cbn [negb]. rewrite checkRateLimit_grant by exact Hadm. reflexivity.
Qed.

(** C10: a POST request that the governor lets through has its time recorded
    whatever happens next: the map returned by the handler holds the pruned
    record of the identity extended by [now], also when the response is the
    400 [ValidationError] for bad requirements or, for a request whose
    prompts can be built, the 500 answer to a failed provider call. *)
Theorem handler_records_before_validation (m : rate_map) (now : Z)
    (env : option str) (b : backend) (req : request) :
  method req = lit "POST" ->
  grants m now req ->
  map_of (handler m now env b req) =
    <[clientIp req := live default_window now (recorded m (clientIp req)) ++ [now]]> m /\
  (forall bd,
     req_body req = Some bd -> requirements_text (requirements bd) = None ->
     is_validation_error (response_of (handler m now env b req))) /\
  (forall bd reqs e,
     req_body req = Some bd -> requirements_text (requirements bd) = Some reqs ->
     (length reqs <= 5000)%nat -> prompts_built bd reqs ->
     snd (generateContract (new_LLMService env) b) = Err e ->
     response_of (handler m now env b req) = caught e).
Proof.
  intros Hm Hadm. rewrite (handler_post m now env b req Hm Hadm).
  split; [|split].
  - destruct (req_body req) as [bd|]; [|reflexivity].
    destruct (requirements_text (requirements bd)) as [reqs|]; [|reflexivity].
    destruct (5000 <? length reqs)%nat; [reflexivity|].
    destruct (log_exn (contractType bd)); [reflexivity|].
    destruct (prompt_exn (detectedType bd reqs) (options bd)); [reflexivity|].
    destruct (generateContract (new_LLMService env) b) as [evs [v|e]]; [|reflexivity].
    destruct (validateAndCleanContract v); reflexivity.
  - intros bd Hbd Hreq. rewrite Hbd, Hreq. eexists. reflexivity.
  - intros bd reqs e Hbd Hreq Hlen [Hlog Hopt] Hgen. rewrite Hbd, Hreq.
    destruct (Nat.ltb_spec 5000 (length reqs)); [lia|].
    rewrite Hlog, Hopt.
    destruct (generateContract (new_LLMService env) b) as [evs r].
    simpl in Hgen. subst r. reflexivity.
Qed.

(** Two requests from a fresh identity, one with too short requirements and
    one whose provider calls all fail: each is answered with an error, and
    the identity's record holds the time of the request afterwards. *)
Lemma handler_records_before_validation_witness :
  map_of (handler ∅ 1000 None (rejecting "down") short_request) =
    {[ lit "203.0.113.7" := [1000] ]} /\
  is_validation_error (response_of (handler ∅ 1000 None (rejecting "down") short_request)) /\
  map_of (handler ∅ 1000 None (rejecting "down") library_request) =
    {[ lit "203.0.113.7" := [1000] ]} /\
  response_of (handler ∅ 1000 None (rejecting "down") library_request) =
    caught (Throw (lit "Error") (lit "LLM generation failed after 3 attempts: down")).
Proof.
  assert (Hshort : grants ∅ 1000 short_request) by fresh_identity.
  assert (Hlib : grants ∅ 1000 library_request) by fresh_identity.
  destruct (handler_records_before_validation ∅ 1000 None (rejecting "down")
              short_request eq_refl Hshort) as (Hmap & Hbad & _).
  destruct (handler_records_before_validation ∅ 1000 None (rejecting "down")
              library_request eq_refl Hlib) as (Hmap' & _ & Hfail).
  assert (Hone : <[lit "203.0.113.7" := live default_window 1000
                     (recorded ∅ (lit "203.0.113.7")) ++ [1000]]> (∅ : rate_map) =
                 {[ lit "203.0.113.7" := [1000] ]}).
  { unfold recorded. rewrite lookup_empty. simpl. apply insert_empty. }
  split; [rewrite Hmap; exact Hone|].
  split; [apply (Hbad _ eq_refl); reflexivity|].
  split; [rewrite Hmap'; exact Hone|].
  apply (Hfail _ (lit "Write a small helper library") _ eq_refl).
  - reflexivity.
  - simpl. lia.
  - split; reflexivity.
  - reflexivity.
Defined.

Lemma requirements_text_bad v :
  bad_requirements v ->
  requirements_text v = None \/
  exists s, requirements_text v = Some s /\ (5000 < length s)%nat.
Proof.
  destruct v as [| | | |s|]; try (now left).
  simpl. intros [Hshort|Hlong].
  - left. destruct s as [|c s]; [reflexivity|].
    destruct (Nat.ltb_spec (length (c :: s)) 10); [reflexivity | lia].
  - right. exists s. split; [|assumption].
    destruct s as [|c s]; [simpl in Hlong; lia|].
    destruct (Nat.ltb_spec (length (c :: s)) 10); [lia | reflexivity].
Qed.

(** With a supported provider and a budget of one attempt or more the first
    thing [generateContract] does is the first POST. *)
Lemma generateContract_first_post svc b :
  supported svc -> (1 <= maxRetries svc)%nat ->
  exists rest, fst (generateContract svc b) = Post (provider svc) 1 :: rest.
Proof.
  intros Hs Hn. unfold generateContract.
  destruct (maxRetries svc) as [|n] eqn:E; [lia|]. rewrite retry_loop_step.
  pose proof (attempt_once_events svc b 1 Hs) as Hev.
  destruct (attempt_once svc b 1) as [evs r]. cbn [fst] in Hev. subst evs.
  destruct r as [v|error]; [eexists; reflexivity|].
  destruct (1 =? maxRetries svc)%nat; [eexists; reflexivity|].
  destruct (retry_loop svc b n 2) as [evs' r']. eexists. reflexivity.
Qed.

(** A string converts to itself, so a category that is a string gets past
    the log line and the property keys. *)
Lemma log_exn_str k : log_exn (Str k) = None.
Proof. unfold log_exn, to_string_exn. now destruct (truthy (Str k)). Qed.

Lemma is_validation_error_caught e : ~ is_validation_error (caught e).
Proof. intros [message H]. discriminate H. Qed.

(** C5, amended: a POST request that the governor lets through, that has a
    body and whose requirements are missing, not a string, empty, shorter
    than 10 or longer than 5000 code units is answered with a 400
    [ValidationError], and no provider call is made; without a body the
    answer is the 500 error, also without a provider call.  An explicit
    category is not validated: whatever non-empty string it is, when the
    requirements are acceptable and the options can be read, the answer is
    no [ValidationError], the gateway is run (with a supported provider
    the first POST goes out), and a success reports that string as the
    category. *)
Theorem handler_rejects_bad_requirements (m : rate_map) (now : Z)
    (env : option str) (b : backend) (req : request) :
  method req = lit "POST" ->
  grants m now req ->
  (forall bd,
     req_body req = Some bd ->
     bad_requirements (requirements bd) ->
     is_validation_error (response_of (handler m now env b req)) /\
     events_of (handler m now env b req) = []) /\
  (req_body req = None ->
     response_of (handler m now env b req) =
       caught (type_error "Cannot destructure property 'requirements' of 'req.body' as it is undefined.") /\
     events_of (handler m now env b req) = []) /\
  (forall bd reqs category,
     req_body req = Some bd ->
     requirements bd = Str reqs -> (10 <= length reqs <= 5000)%nat ->
     contractType bd = Str category -> category <> [] ->
     prompt_exn (Str category) (options bd) = None ->
     ~ is_validation_error (response_of (handler m now env b req)) /\
     events_of (handler m now env b req) = fst (generateContract (new_LLMService env) b) /\
     (supported (new_LLMService env) ->
      exists rest,
        events_of (handler m now env b req) =
          Post (provider (new_LLMService env)) 1 :: rest) /\
     (forall c ty,
        response_of (handler m now env b req) = Success c ty -> ty = Str category)).
Proof.
  intros Hm Hadm. rewrite (handler_post m now env b req Hm Hadm).
  split; [|split].
  - intros bd Hbd Hbad. rewrite Hbd.
    destruct (requirements_text_bad _ Hbad) as [Hnone | (s & Hsome & Hlong)].
    + rewrite Hnone. split; [eexists|]; reflexivity.
    + rewrite Hsome. destruct (Nat.ltb_spec 5000 (length s)); [|lia].
      split; [eexists|]; reflexivity.
  - intros Hbd. rewrite Hbd. split; reflexivity.
  - intros bd reqs category Hbd Hreq Hlen Hty Hne Hopt. rewrite Hbd.
    assert (Htext : requirements_text (requirements bd) = Some reqs).
    { rewrite Hreq. destruct reqs as [|c reqs]; [simpl in Hlen; lia|].
      simpl. destruct (Nat.ltb_spec (S (length reqs)) 10); [simpl in Hlen; lia | reflexivity]. }
    assert (Hdet : detectedType bd reqs = Str category).
    { unfold detectedType. rewrite Hty. destruct category; [contradiction | reflexivity]. }
    rewrite Htext. destruct (Nat.ltb_spec 5000 (length reqs)); [lia|].
    rewrite Hty, log_exn_str, Hdet, Hopt.
    pose proof (generateContract_first_post (new_LLMService env) b) as Hhead.
    destruct (generateContract (new_LLMService env) b) as [evs [v|e]]; cbn [fst] in Hhead.
    + destruct (validateAndCleanContract v) as [cleaned|e];
        unfold response_of, events_of; cbn [fst snd].
      * split; [intros [message Hmsg]; discriminate Hmsg|].
        split; [reflexivity|]. split; [intros Hs; apply Hhead; [exact Hs | simpl; lia]|].
        intros c ty [= _ <-]. reflexivity.
      * split; [apply is_validation_error_caught|].
        split; [reflexivity|]. split; [intros Hs; apply Hhead; [exact Hs | simpl; lia]|].
        discriminate.
    + unfold response_of, events_of. cbn [fst snd].
      split; [apply is_validation_error_caught|].
      split; [reflexivity|]. split; [intros Hs; apply Hhead; [exact Hs | simpl; lia]|].
      discriminate.
Qed.

(** A request with too short requirements is answered with a
    [ValidationError] without any call; one that names the category
    "lottery" is passed on and reports it. *)
Lemma handler_rejects_bad_requirements_witness :
  (is_validation_error
     (response_of (handler ∅ 1000 None (answering plain_contract) short_request)) /\
   events_of (handler ∅ 1000 None (answering plain_contract) short_request) = []) /\
  (~ is_validation_error
       (response_of (handler ∅ 1000 None (answering raffle_contract) raffle_request)) /\
   exists rest,
     events_of (handler ∅ 1000 None (answering raffle_contract) raffle_request) =
       Post (lit "openai") 1 :: rest).
Proof.
  assert (Hshort : grants ∅ 1000 short_request) by fresh_identity.
  assert (Hraffle : grants ∅ 1000 raffle_request) by fresh_identity.
  destruct (handler_rejects_bad_requirements ∅ 1000 None (answering plain_contract)
              short_request eq_refl Hshort) as (Hbad & _ & _).
  destruct (handler_rejects_bad_requirements ∅ 1000 None (answering raffle_contract)
              raffle_request eq_refl Hraffle) as (_ & _ & Hpass).
  split.
  - apply (Hbad _ eq_refl). simpl. left. lia.
  - destruct (Hpass _ (lit "Build a raffle for my community") (lit "lottery") eq_refl eq_refl)
      as (Hno & _ & Hpost & _).
    + simpl. lia.
    + reflexivity.
    + discriminate.
    + reflexivity.
    + split; [exact Hno|]. apply Hpost. left. reflexivity.
Defined.

(** C5 as stated fails: the explicit category "lottery" is in no way
    supported, yet the request is not answered with a [ValidationError]; the
    provider is called and the request succeeds. *)
Lemma handler_unsupported_category_counterexample :
  ~ In (lit "lottery") supported_keys /\
  response_of (handler ∅ 1000 None (answering raffle_contract) raffle_request) =
    Success (default_license ++ [LF] ++ default_pragma ++ [LF] ++ raffle_contract)
      (Str (lit "lottery")) /\
  events_of (handler ∅ 1000 None (answering raffle_contract) raffle_request) =
    [Post (lit "openai") 1] /\
  ~ (is_validation_error
       (response_of (handler ∅ 1000 None (answering raffle_contract) raffle_request)) /\
     events_of (handler ∅ 1000 None (answering raffle_contract) raffle_request) = []).
Proof.
  assert (Hout : handler ∅ 1000 None (answering raffle_contract) raffle_request =
    (Success (default_license ++ [LF] ++ default_pragma ++ [LF] ++ raffle_contract)
       (Str (lit "lottery")),
     <[clientIp raffle_request :=
         live default_window 1000 (recorded ∅ (clientIp raffle_request)) ++ [1000]]> ∅,
     [Post (lit "openai") 1])).
  { rewrite handler_post.
    - vm_compute. reflexivity.
    - reflexivity.
    - fresh_identity. }
  rewrite Hout. unfold response_of, events_of. cbn [fst snd].
  split; [|split; [reflexivity | split; [reflexivity|]]].
  - vm_compute. intuition discriminate.
  - intros [_ H]. discriminate H.
Qed.

(** ** Sanitizer: the final white-space clean-up *)

Lemma exec_lf_run n : forall s,
  exec false [Rep (fun c => ascii_eqb c LF) n true] s =
    if (n <=? lf_run s)%nat then Some (lf_run s) else None.
Proof.
  intros s. revert n. induction s as [|c s IH]; intros n.
  - destruct n; reflexivity.
  - destruct n as [|n].
    + cbn -[Nat.leb LF]. destruct (ascii_eqb c LF) eqn:Hc.
      * specialize (IH 0%nat). cbn -[Nat.leb LF] in IH. rewrite IH. reflexivity.
      * reflexivity.
    + cbn -[Nat.leb LF]. destruct (ascii_eqb c LF) eqn:Hc.
      * specialize (IH n). cbn -[Nat.leb LF] in IH. rewrite IH.
        change (S n <=? S (lf_run s))%nat with (n <=? lf_run s)%nat.
        destruct (n <=? lf_run s)%nat; reflexivity.
      * reflexivity.
Qed.

Lemma match_blank_run prev s :
  match_at blank_run prev s = if (3 <=? lf_run s)%nat then Some (lf_run s) else None.
Proof. unfold match_at, blank_run. cbn [anchored ignoreCase atoms andb]. apply exec_lf_run. Qed.

Lemma squeeze_cons c s :
  squeeze (c :: s) =
    if ascii_eqb c LF && startsWith [LF; LF] s then squeeze s else c :: squeeze s.
Proof. reflexivity. Qed.

Lemma lf_run_cons c s :
  lf_run (c :: s) = if ascii_eqb c LF then S (lf_run s) else 0%nat.
Proof. reflexivity. Qed.

Lemma starts_two_lf s : startsWith [LF; LF] s = (2 <=? lf_run s)%nat.
Proof.
  destruct s as [|c [|d s]]; cbn -[LF].
  - reflexivity.
  - rewrite (eq_sym (Ascii.eqb_sym c LF)) at 1. unfold ascii_eqb.
    destruct (Ascii.eqb c LF); [now rewrite andb_false_r | reflexivity].
  - unfold ascii_eqb. rewrite (Ascii.eqb_sym LF c), (Ascii.eqb_sym LF d).
    destruct (Ascii.eqb c LF); [|reflexivity].
    destruct (Ascii.eqb d LF); reflexivity.
Qed.

Lemma squeeze_run s :
  (2 <= lf_run s)%nat -> squeeze s = LF :: LF :: squeeze (drop (lf_run s) s).
Proof.
  induction s as [|c s IH]; [simpl; lia|].
  rewrite lf_run_cons, squeeze_cons, starts_two_lf.
  destruct (ascii_eqb c LF) eqn:Hc; [|lia].
  apply ascii_eqb_eq in Hc. subst c. intros Hrun. cbn [andb drop].
  destruct (Nat.leb_spec 2 (lf_run s)) as [H2|H2].
  - now apply IH.
  - destruct s as [|d s]; [simpl in Hrun; lia|].
    rewrite lf_run_cons in Hrun, H2 |- *.
    destruct (ascii_eqb d LF) eqn:Hd; [|lia].
    apply ascii_eqb_eq in Hd. subst d.
    assert (H0 : lf_run s = 0%nat) by lia. rewrite H0. cbn [drop].
    rewrite squeeze_cons, starts_two_lf, H0. cbn [Nat.leb andb].
    now rewrite andb_false_r.
Qed.

Lemma replace_blank_run_aux s :
  (forall prev, replace_from blank_run [LF; LF] prev 0 s = squeeze s) /\
  (forall prev, replace_from blank_run [LF; LF] prev (lf_run s) s = squeeze (drop (lf_run s) s)).
Proof.
  induction s as [|c s [IHP IHQ]].
  - split; intros prev; reflexivity.
  - assert (HP : forall prev, replace_from blank_run [LF; LF] prev 0 (c :: s) = squeeze (c :: s)).
    { intros prev. cbn [replace_from]. rewrite match_blank_run.
      destruct (Nat.leb_spec 3 (lf_run (c :: s))) as [Hrun|Hrun].
      - rewrite squeeze_run by lia.
        rewrite lf_run_cons in Hrun |- *. destruct (ascii_eqb c LF) eqn:Hc; [|lia].
        cbn [drop app]. now rewrite IHQ.
      - rewrite IHP, squeeze_cons, starts_two_lf.
        rewrite lf_run_cons in Hrun. destruct (ascii_eqb c LF) eqn:Hc; [|reflexivity].
        destruct (Nat.leb_spec 2 (lf_run s)); [lia | reflexivity]. }
    split; [exact HP|].
    intros prev. rewrite lf_run_cons. destruct (ascii_eqb c LF) eqn:Hc.
    + cbn [replace_from drop]. apply IHQ.
    + change (drop 0 (c :: s)) with (c :: s). apply HP.
Qed.

Lemma replace_blank_run s : replaceAll blank_run [LF; LF] s = squeeze s.
Proof. apply replace_blank_run_aux. Qed.

Lemma tidy_eq s : tidy s = trim (squeeze s).
Proof. unfold tidy. now rewrite replace_blank_run. Qed.

(** Solid words *)

Lemma solid_inv w :
  solid w = true ->
  exists x w', w = x :: w' /\ is_space x = false /\
    is_space (List.last w x) = false /\
    Forall (fun c => ascii_eqb c LF = false) w.
Proof.
  destruct w as [|x w']; [discriminate|].
  unfold solid. intros H.
  apply andb_true_iff in H as [H Hlf]. apply andb_true_iff in H as [Hx Hl].
  exists x, w'. repeat split.
  - now apply negb_true_iff.
  - now apply negb_true_iff.
  - apply Forall_forall. intros c Hc.
    rewrite forallb_forall in Hlf. apply negb_true_iff. apply Hlf.
    now apply list_elem_of_In.
Qed.

Lemma squeeze_word w b :
  Forall (fun c => ascii_eqb c LF = false) w -> squeeze (w ++ b) = w ++ squeeze b.
Proof.
  induction 1 as [|c w Hc Hw IH]; [reflexivity|].
  change ((c :: w) ++ b) with (c :: (w ++ b)).
  rewrite squeeze_cons, Hc, IH. reflexivity.
Qed.

Lemma squeeze_infix w a b :
  Forall (fun c => ascii_eqb c LF = false) w ->
  exists a' b', squeeze (a ++ w ++ b) = a' ++ w ++ b'.
Proof.
  intros Hw. induction a as [|c a (a' & b' & IH)].
  - exists [], (squeeze b). simpl. now apply squeeze_word.
  - change ((c :: a) ++ w ++ b) with (c :: (a ++ w ++ b)).
    rewrite squeeze_cons, IH.
    destruct (ascii_eqb c LF && _).
    + now exists a', b'.
    + now exists (c :: a'), b'.
Qed.

Lemma trimStart_infix x w a b :
  is_space x = false ->
  exists a', trimStart (a ++ x :: w ++ b) = a' ++ x :: w ++ b.
Proof.
  intros Hx. induction a as [|c a [a' IH]].
  - exists []. simpl. now rewrite Hx.
  - simpl. destruct (is_space c).
    + now exists a'.
    + now exists (c :: a).
Qed.

Lemma trimEnd_cons c s :
  trimEnd (c :: s) =
    match trimEnd s with
    | [] => if is_space c then [] else [c]
    | r => c :: r
    end.
Proof. reflexivity. Qed.

Lemma trimEnd_solid_cons c s : is_space c = false -> trimEnd (c :: s) = c :: trimEnd s.
Proof. intros Hc. rewrite trimEnd_cons, Hc. now destruct (trimEnd s). Qed.

Lemma trimEnd_app_nonempty a s : trimEnd s <> [] -> trimEnd (a ++ s) = a ++ trimEnd s.
Proof.
  intros Hs. induction a as [|c a IH]; [reflexivity|].
  change ((c :: a) ++ s) with (c :: (a ++ s)).
  rewrite trimEnd_cons, IH. destruct (a ++ trimEnd s) eqn:E.
  - apply app_eq_nil in E as [_ E]. contradiction.
  - simpl. now rewrite E.
Qed.

(** A unit that is not white space shields what is before it. *)
Lemma trimEnd_upto a y b :
  is_space y = false -> trimEnd (a ++ y :: b) = a ++ y :: trimEnd b.
Proof.
  intros Hy. rewrite trimEnd_app_nonempty; rewrite trimEnd_solid_cons by assumption;
    [reflexivity | discriminate].
Qed.

Lemma solid_last w :
  solid w = true -> exists w0 y, w = w0 ++ [y] /\ is_space y = false.
Proof.
  intros H. destruct (solid_inv w H) as (x & w' & Hw & _ & Hl & _).
  exists (removelast w), (List.last w x). split; [|assumption].
  apply app_removelast_last. now rewrite Hw.
Qed.

Lemma trimStart_trimmed x s : is_space x = false -> trimStart (x :: s) = x :: s.
Proof. intros H. simpl. now rewrite H. Qed.

(** [tidy] keeps every occurrence of a solid word. *)
Lemma tidy_includes w s : solid w = true -> includes w s = true -> includes w (tidy s) = true.
Proof.
  intros Hsolid Hin.
  destruct (solid_inv w Hsolid) as (x & w' & Hw & Hx & _ & Hlf).
  destruct (solid_last w Hsolid) as (w0 & y & Hw0 & Hy).
  apply includes_inv in Hin as (a & b & ->).
  rewrite tidy_eq. destruct (squeeze_infix w a b Hlf) as (a1 & b1 & ->).
  unfold trim.
  assert (Hts : exists a2, trimStart (a1 ++ w ++ b1) = a2 ++ w ++ b1).
  { rewrite Hw. apply (trimStart_infix x w' a1 b1 Hx). }
  destruct Hts as [a2 ->].
  assert (Hte : trimEnd (a2 ++ w ++ b1) = a2 ++ w ++ trimEnd b1).
  { rewrite Hw0, <- !app_assoc. simpl.
    rewrite (app_assoc a2 w0), trimEnd_upto by assumption.
    now rewrite <- app_assoc. }
  rewrite Hte. apply includes_app.
Qed.

(** ** Counting occurrences *)


Lemma occurrences_cons p c s :
  occurrences p (c :: s) = ((if startsWith p (c :: s) then 1 else 0) + occurrences p s)%nat.
Proof. reflexivity. Qed.

Lemma includes_occurrences p s : includes p s = (0 <? occurrences p s)%nat.
Proof.
  induction s as [|c s IH].
  - simpl. destruct (startsWith p []); reflexivity.
  - rewrite includes_cons, occurrences_cons, IH.
    destruct (startsWith p (c :: s)); [reflexivity|].
    reflexivity.
Qed.

Lemma includes_false_occurrences p s : includes p s = false <-> occurrences p s = 0%nat.
Proof.
  rewrite includes_occurrences. destruct (Nat.ltb_spec 0 (occurrences p s)); split; intros; lia || congruence.
Qed.

Lemma includes_true_occurrences p s : includes p s = true <-> (0 < occurrences p s)%nat.
Proof.
  rewrite includes_occurrences. apply Nat.ltb_lt.
Qed.

(** A word without line feed cannot reach across one. *)
Lemma startsWith_stops_at_lf m : forall a b,
  lf_free m -> startsWith m (a ++ LF :: b) = startsWith m a.
Proof.
  induction m as [|x m IH]; intros a b Hm; [reflexivity|].
  inversion Hm as [|? ? Hx Hm']; subst.
  destruct a as [|y a]; simpl.
  - unfold ascii_eqb in *. now rewrite Hx.
  - now rewrite IH.
Qed.

Lemma occurrences_nil x m : occurrences (x :: m) [] = 0%nat.
Proof. reflexivity. Qed.

Lemma occurrences_app_lf x m a b :
  lf_free (x :: m) ->
  occurrences (x :: m) (a ++ LF :: b) =
    (occurrences (x :: m) a + occurrences (x :: m) b)%nat.
Proof.
  intros Hm. induction a as [|y a IH].
  - change ([] ++ LF :: b) with (LF :: b).
    rewrite occurrences_cons.
    replace (startsWith (x :: m) (LF :: b)) with false; [reflexivity|].
    simpl. inversion Hm; subst. unfold ascii_eqb in *. now rewrite H1.
  - change ((y :: a) ++ LF :: b) with (y :: (a ++ LF :: b)).
    rewrite !occurrences_cons, IH.
    change (y :: a ++ LF :: b) with ((y :: a) ++ LF :: b).
    rewrite startsWith_stops_at_lf by assumption. lia.
Qed.

(** ** Lines *)

Lemma split_cons c s :
  split LF (c :: s) =
    if ascii_eqb c LF then [] :: split LF s
    else match split LF s with
         | [] => [[c]]
         | l :: ls => (c :: l) :: ls
         end.
Proof. reflexivity. Qed.

Lemma split_not_nil s : split LF s <> [].
Proof.
  destruct s as [|c s]; [discriminate|].
  rewrite split_cons. destruct (ascii_eqb c LF); [discriminate|].
  destruct (split LF s); discriminate.
Qed.

Lemma join_cons l l2 ls : join [LF] (l :: l2 :: ls) = l ++ LF :: join [LF] (l2 :: ls).
Proof. reflexivity. Qed.

Lemma join_push c l ls : join [LF] ((c :: l) :: ls) = c :: join [LF] (l :: ls).
Proof. destruct ls; reflexivity. Qed.

Lemma join_split s : join [LF] (split LF s) = s.
Proof.
  induction s as [|c s IH]; [reflexivity|].
  rewrite split_cons. destruct (ascii_eqb c LF) eqn:Hc.
  - apply ascii_eqb_eq in Hc. subst c.
    pose proof (split_not_nil s) as Hne.
    destruct (split LF s) as [|l ls]; [contradiction|].
    rewrite join_cons, IH. reflexivity.
  - pose proof (split_not_nil s) as Hne.
    destruct (split LF s) as [|l ls]; [contradiction|].
    now rewrite join_push, IH.
Qed.

Lemma split_lf_free s : Forall lf_free (split LF s).
Proof.
  induction s as [|c s IH]; [repeat constructor|].
  rewrite split_cons. destruct (ascii_eqb c LF) eqn:Hc.
  - constructor; [constructor | assumption].
  - destruct (split LF s) as [|l ls]; [repeat constructor; assumption|].
    inversion IH; subst. constructor; [|assumption].
    constructor; assumption.
Qed.

Lemma split_app_lf a b : lf_free a -> split LF (a ++ LF :: b) = a :: split LF b.
Proof.
  induction 1 as [|c a Hc Ha IH].
  - change ([] ++ LF :: b) with (LF :: b). rewrite split_cons.
    now rewrite ascii_eqb_refl.
  - change ((c :: a) ++ LF :: b) with (c :: (a ++ LF :: b)).
    rewrite split_cons, Hc, IH. reflexivity.
Qed.

Lemma join_after l post : join [LF] (l :: post) = l ++ after_line post.
Proof.
  revert l. induction post as [|l2 post IH]; intros l.
  - simpl. now rewrite app_nil_r.
  - rewrite join_cons, IH. reflexivity.
Qed.

Lemma join_around pre l post :
  join [LF] (pre ++ l :: post) = before_line pre ++ l ++ after_line post.
Proof.
  induction pre as [|p pre IH].
  - apply join_after.
  - change ((p :: pre) ++ l :: post) with (p :: (pre ++ l :: post)).
    destruct (pre ++ l :: post) as [|l2 ls] eqn:E.
    + destruct pre; discriminate.
    + rewrite join_cons, IH. unfold before_line. simpl.
      rewrite <- !app_assoc. reflexivity.
Qed.

Lemma occurrences_before_line x m pre :
  lf_free (x :: m) ->
  Forall (fun l => includes (x :: m) l = false) pre ->
  occurrences (x :: m) (before_line pre) = 0%nat.
Proof.
  intros Hm. induction 1 as [|p pre Hp Hpre IH]; [reflexivity|].
  unfold before_line. simpl. rewrite <- app_assoc. simpl.
  rewrite occurrences_app_lf by assumption.
  fold (before_line pre). rewrite IH.
  apply includes_false_occurrences in Hp. lia.
Qed.

Lemma occurrences_join x m ls :
  lf_free (x :: m) ->
  occurrences (x :: m) (join [LF] ls) = list_sum (map (occurrences (x :: m)) ls).
Proof.
  intros Hm. induction ls as [|l ls IH]; [reflexivity|].
  destruct ls as [|l2 ls].
  - simpl. lia.
  - rewrite join_cons, occurrences_app_lf, IH by assumption. reflexivity.
Qed.

(** [findIndex] *)

Lemma findIndex_Some {A} (p : A -> bool) l i :
  findIndex p l = Some i ->
  exists pre x post,
    l = pre ++ x :: post /\ length pre = i /\
    Forall (fun y => p y = false) pre /\ p x = true.
Proof.
  revert i. induction l as [|y l IH]; intros i; simpl; [discriminate|].
  destruct (p y) eqn:Hy.
  - intros [= <-]. now exists [], y, l.
  - destruct (findIndex p l) as [j|]; [|discriminate].
    intros [= <-]. destruct (IH j eq_refl) as (pre & x & post & -> & Hl & Hpre & Hx).
    exists (y :: pre), x, post. repeat split; simpl; auto.
Qed.

Lemma findIndex_None {A} (p : A -> bool) l :
  findIndex p l = None -> Forall (fun y => p y = false) l.
Proof.
  induction l as [|y l IH]; simpl; [constructor|].
  destruct (p y) eqn:Hy; [discriminate|].
  destruct (findIndex p l); [discriminate|]. constructor; auto.
Qed.

Lemma splice_insert_after {A} (pre : list A) x y post :
  splice_insert (length pre + 1) y (pre ++ x :: post) = pre ++ x :: y :: post.
Proof.
  unfold splice_insert.
  replace (pre ++ x :: post) with ((pre ++ [x]) ++ post) by (now rewrite <- app_assoc).
  replace (length pre + 1)%nat with (length (pre ++ [x])) by (rewrite length_app; simpl; lia).
  rewrite take_app_length, drop_app_length, <- app_assoc. reflexivity.
Qed.

(** ** [tidy] keeps the count of a solid word *)

Lemma solid_lf_free w : solid w = true -> lf_free w.
Proof. intros H. now destruct (solid_inv w H) as (x & w' & _ & _ & _ & Hlf). Qed.

Lemma squeeze_head_lf s : (1 <= lf_run s)%nat -> exists r, squeeze s = LF :: r.
Proof.
  induction s as [|c s IH]; [simpl; lia|].
  rewrite lf_run_cons, squeeze_cons, starts_two_lf.
  destruct (ascii_eqb c LF) eqn:Hc; [|lia]. intros _.
  apply ascii_eqb_eq in Hc. subst c.
  destruct (Nat.leb_spec 2 (lf_run s)); cbn [andb].
  - apply IH. lia.
  - now eexists.
Qed.

Lemma startsWith_squeeze m : forall s,
  lf_free m -> startsWith m (squeeze s) = startsWith m s.
Proof.
  induction m as [|x m IH]; intros s Hm; [reflexivity|].
  inversion Hm as [|? ? Hx Hm']; subst.
  destruct s as [|c s]; [reflexivity|].
  rewrite squeeze_cons. destruct (ascii_eqb c LF && startsWith [LF; LF] s) eqn:Hdrop.
  - apply andb_true_iff in Hdrop as [Hc H2]. apply ascii_eqb_eq in Hc. subst c.
    rewrite starts_two_lf in H2. apply Nat.leb_le in H2.
    destruct (squeeze_head_lf s ltac:(lia)) as [r ->].
    simpl. now rewrite Hx.
  - simpl. now rewrite IH.
Qed.

Lemma occurrences_squeeze x m s :
  lf_free (x :: m) -> occurrences (x :: m) (squeeze s) = occurrences (x :: m) s.
Proof.
  intros Hm. induction s as [|c s IH]; [reflexivity|].
  rewrite squeeze_cons. destruct (ascii_eqb c LF && startsWith [LF; LF] s) eqn:Hdrop.
  - apply andb_true_iff in Hdrop as [Hc _]. apply ascii_eqb_eq in Hc. subst c.
    rewrite occurrences_cons, IH.
    replace (startsWith (x :: m) (LF :: s)) with false; [reflexivity|].
    simpl. inversion Hm; subst. now rewrite H1.
  - rewrite !occurrences_cons, IH.
    replace (startsWith (x :: m) (c :: squeeze s)) with (startsWith (x :: m) (c :: s));
      [reflexivity|].
    simpl. inversion Hm; subst. now rewrite startsWith_squeeze.
Qed.

Lemma occurrences_trimStart x m s :
  is_space x = false -> occurrences (x :: m) (trimStart s) = occurrences (x :: m) s.
Proof.
  intros Hx. induction s as [|c s IH]; [reflexivity|].
  simpl trimStart. destruct (is_space c) eqn:Hc; [|reflexivity].
  rewrite occurrences_cons, IH.
  replace (startsWith (x :: m) (c :: s)) with false; [reflexivity|].
  simpl. destruct (ascii_eqb x c) eqn:E; [|reflexivity].
  apply ascii_eqb_eq in E. congruence.
Qed.

(** Words that end with a unit that is not white space. *)
Lemma startsWith_trimEnd m y : forall s,
  is_space y = false ->
  startsWith (m ++ [y]) (trimEnd s) = startsWith (m ++ [y]) s.
Proof.
  induction m as [|x m IH]; intros s Hy.
  - destruct s as [|c s]; [reflexivity|].
    rewrite trimEnd_cons. simpl.
    destruct (trimEnd s) eqn:E.
    + destruct (is_space c) eqn:Hc.
      * destruct (ascii_eqb y c) eqn:Hyc; [|reflexivity].
        apply ascii_eqb_eq in Hyc. congruence.
      * simpl. now rewrite !andb_true_r.
    + simpl. now rewrite !andb_true_r.
  - destruct s as [|c s]; [reflexivity|].
    rewrite trimEnd_cons. simpl.
    destruct (trimEnd s) eqn:E.
    + specialize (IH s Hy). rewrite E in IH. rewrite <- IH.
      destruct (is_space c); simpl; destruct m; simpl; now rewrite ?andb_false_r.
    + simpl. rewrite <- E. now rewrite IH.
Qed.

Lemma occurrences_trimEnd m y s :
  is_space y = false ->
  occurrences (m ++ [y]) (trimEnd s) = occurrences (m ++ [y]) s.
Proof.
  intros Hy.
  assert (Hnil : occurrences (m ++ [y]) [] = 0%nat) by (destruct m; reflexivity).
  induction s as [|c s IH]; [reflexivity|].
  rewrite occurrences_cons, <- IH, <- (startsWith_trimEnd m y (c :: s)) by assumption.
  rewrite trimEnd_cons. destruct (trimEnd s) eqn:E.
  - rewrite Hnil. destruct (is_space c).
    + rewrite Hnil. destruct m; reflexivity.
    + rewrite occurrences_cons, Hnil. reflexivity.
  - now rewrite occurrences_cons.
Qed.

Lemma occurrences_tidy w s : solid w = true -> occurrences w (tidy s) = occurrences w s.
Proof.
  intros Hsolid.
  destruct (solid_inv w Hsolid) as (x & w' & Hw & Hx & _ & Hlf).
  destruct (solid_last w Hsolid) as (w0 & y & Hw0 & Hy).
  rewrite tidy_eq. unfold trim.
  rewrite Hw0, occurrences_trimEnd by assumption. rewrite <- Hw0, Hw.
  rewrite occurrences_trimStart by assumption.
  rewrite <- Hw in *. rewrite Hw. apply occurrences_squeeze. now rewrite <- Hw.
Qed.

(** ** [tidy] is idempotent *)

Lemma calm_cons c s :
  calm (c :: s) = negb (ascii_eqb c LF && startsWith [LF; LF] s) && calm s.
Proof. reflexivity. Qed.

Lemma lf_run_squeeze s : lf_run (squeeze s) = Nat.min 2 (lf_run s).
Proof.
  induction s as [|c s IH]; [reflexivity|].
  rewrite squeeze_cons, starts_two_lf, lf_run_cons.
  destruct (ascii_eqb c LF) eqn:Hc; cbn [andb].
  - destruct (Nat.leb_spec 2 (lf_run s)).
    + rewrite IH. lia.
    + rewrite lf_run_cons, Hc, IH. lia.
  - rewrite lf_run_cons, Hc. reflexivity.
Qed.

Lemma calm_squeeze s : calm (squeeze s) = true.
Proof.
  induction s as [|c s IH]; [reflexivity|].
  rewrite squeeze_cons. destruct (ascii_eqb c LF && startsWith [LF; LF] s) eqn:Hdrop;
    [exact IH|].
  cbn [calm]. rewrite IH, andb_true_r, starts_two_lf, lf_run_squeeze.
  rewrite starts_two_lf in Hdrop.
  destruct (ascii_eqb c LF); [|reflexivity]. cbn [andb] in *.
  apply Nat.leb_gt in Hdrop. apply negb_true_iff. apply Nat.leb_gt. lia.
Qed.

Lemma squeeze_calm s : calm s = true -> squeeze s = s.
Proof.
  induction s as [|c s IH]; [reflexivity|].
  cbn [calm]. intros H. apply andb_true_iff in H as [Hc Hs].
  rewrite squeeze_cons. apply negb_true_iff in Hc. rewrite Hc, IH by assumption.
  reflexivity.
Qed.

Lemma calm_trimStart s : calm s = true -> calm (trimStart s) = true.
Proof.
  induction s as [|c s IH]; [reflexivity|].
  intros H. simpl trimStart. destruct (is_space c); [|assumption].
  apply IH. cbn [calm] in H. now apply andb_true_iff in H as [_ H].
Qed.

Lemma trimEnd_prefix s : exists z, s = trimEnd s ++ z.
Proof.
  induction s as [|c s [z IH]]; [now exists []|].
  rewrite trimEnd_cons. destruct (trimEnd s) eqn:E.
  - destruct (is_space c).
    + now exists (c :: s).
    + exists s. reflexivity.
  - exists z. simpl. now rewrite IH at 1.
Qed.

Lemma calm_trimEnd s : calm s = true -> calm (trimEnd s) = true.
Proof.
  induction s as [|c s IH]; [reflexivity|].
  cbn [calm]. intros H. apply andb_true_iff in H as [Hc Hs].
  specialize (IH Hs). rewrite trimEnd_cons.
  destruct (trimEnd s) as [|d r] eqn:E.
  - destruct (is_space c); [reflexivity|]. cbn [calm].
    simpl. now rewrite andb_false_r.
  - rewrite calm_cons, IH, andb_true_r, <- E.
    apply negb_true_iff. apply negb_true_iff in Hc.
    destruct (ascii_eqb c LF); [|reflexivity]. cbn [andb] in *.
    destruct (startsWith [LF; LF] (trimEnd s)) eqn:Hp; [|reflexivity].
    apply startsWith_inv in Hp as [t Ht].
    destruct (trimEnd_prefix s) as [z Hz]. rewrite Ht in Hz.
    rewrite Hz in Hc. rewrite <- app_assoc, startsWith_app in Hc. discriminate.
Qed.

Lemma trimEnd_idem s : trimEnd (trimEnd s) = trimEnd s.
Proof.
  induction s as [|c s IH]; [reflexivity|].
  rewrite trimEnd_cons. destruct (trimEnd s) as [|d r] eqn:E.
  - destruct (is_space c) eqn:Hc; [reflexivity|].
    rewrite trimEnd_cons. simpl. now rewrite Hc.
  - rewrite trimEnd_cons, IH. reflexivity.
Qed.

Lemma trimStart_head s :
  trimStart s = [] \/ exists x r, trimStart s = x :: r /\ is_space x = false.
Proof.
  induction s as [|c s IH]; [now left|].
  simpl. destruct (is_space c) eqn:Hc; [assumption|].
  right. now exists c, s.
Qed.

Lemma trim_idem s : trim (trim s) = trim s.
Proof.
  unfold trim. destruct (trimStart_head s) as [->|(x & r & -> & Hx)]; [reflexivity|].
  rewrite trimEnd_solid_cons by assumption.
  rewrite trimStart_trimmed by assumption.
  rewrite <- (trimEnd_solid_cons x r) by assumption. apply trimEnd_idem.
Qed.

Lemma tidy_idem s : tidy (tidy s) = tidy s.
Proof.
  rewrite !tidy_eq. rewrite (squeeze_calm (trim (squeeze s))).
  - apply trim_idem.
  - unfold trim. apply calm_trimEnd, calm_trimStart, calm_squeeze.
Qed.

(** The same for solid words. *)

Lemma solid_cons w : solid w = true -> exists x m, w = x :: m /\ lf_free (x :: m).
Proof.
  intros H. destruct (solid_inv w H) as (x & m & Hw & _ & _ & Hlf).
  exists x, m. split; [assumption | now rewrite <- Hw].
Qed.

Lemma occurrences_solid_app_lf w a b :
  solid w = true ->
  occurrences w (a ++ LF :: b) = (occurrences w a + occurrences w b)%nat.
Proof.
  intros H. destruct (solid_cons w H) as (x & m & -> & Hlf).
  now apply occurrences_app_lf.
Qed.

Lemma occurrences_solid_join w ls :
  solid w = true ->
  occurrences w (join [LF] ls) = list_sum (map (occurrences w) ls).
Proof.
  intros H. destruct (solid_cons w H) as (x & m & -> & Hlf).
  now apply occurrences_join.
Qed.

Lemma occurrences_solid_before_line w pre :
  solid w = true ->
  Forall (fun l => includes w l = false) pre ->
  occurrences w (before_line pre) = 0%nat.
Proof.
  intros H. destruct (solid_cons w H) as (x & m & -> & Hlf).
  now apply occurrences_before_line.
Qed.

Lemma occurrences_insert_line w pre l post line :
  solid w = true ->
  occurrences w (join [LF] (pre ++ l :: line :: post)) =
    (occurrences w (join [LF] (pre ++ l :: post)) + occurrences w line)%nat.
Proof.
  intros Hw. rewrite !occurrences_solid_join by assumption.
  rewrite !map_app, !list_sum_app. simpl. lia.
Qed.

(** ** License header and pragma *)

Lemma license_marker_solid : solid license_marker = true.
Proof. reflexivity. Qed.
Lemma pragma_marker_solid : solid pragma_marker = true.
Proof. reflexivity. Qed.
Lemma default_license_solid : solid default_license = true.
Proof. reflexivity. Qed.
Lemma default_pragma_solid : solid default_pragma = true.
Proof. reflexivity. Qed.

Lemma ensureLicense_absent t :
  includes license_marker t = false ->
  ensureLicense t = default_license ++ LF :: t /\
  occurrences license_marker (ensureLicense t) = 1%nat /\
  occurrences pragma_marker (ensureLicense t) = occurrences pragma_marker t.
Proof.
  intros H. unfold ensureLicense. rewrite H. split; [reflexivity|].
  change (default_license ++ [LF] ++ t) with (default_license ++ LF :: t).
  split.
  - rewrite occurrences_solid_app_lf by reflexivity.
    apply includes_false_occurrences in H. rewrite H. reflexivity.
  - rewrite occurrences_solid_app_lf by reflexivity. reflexivity.
Qed.

Lemma ensureLicense_present t :
  includes license_marker t = true -> ensureLicense t = t.
Proof. intros H. unfold ensureLicense. now rewrite H. Qed.

Lemma ensureLicense_has t : includes license_marker (ensureLicense t) = true.
Proof.
  destruct (includes license_marker t) eqn:H.
  - now rewrite ensureLicense_present.
  - apply includes_true_occurrences.
    destruct (ensureLicense_absent t H) as (_ & -> & _). lia.
Qed.

Lemma ensurePragma_present u :
  includes pragma_marker u = true -> ensurePragma u = u.
Proof. intros H. unfold ensurePragma. now rewrite H. Qed.

Lemma list_sum_zero (f : str -> nat) ls :
  Forall (fun l => f l = 0%nat) ls -> list_sum (map f ls) = 0%nat.
Proof. induction 1 as [|l ls Hl _ IH]; simpl; lia. Qed.

(** When the pragma is missing it is put behind the first line that holds
    the license marker. *)
Lemma ensurePragma_absent u :
  includes pragma_marker u = false ->
  includes license_marker u = true ->
  exists pre l post,
    split LF u = pre ++ l :: post /\
    Forall (fun p => includes license_marker p = false) pre /\
    includes license_marker l = true /\
    ensurePragma u = join [LF] (pre ++ l :: default_pragma :: post).
Proof.
  intros Hp Hl. unfold ensurePragma. rewrite Hp.
  destruct (findIndex (includes license_marker) (split LF u)) as [i|] eqn:Hi.
  - destruct (findIndex_Some _ _ _ Hi) as (pre & l & post & Hs & <- & Hpre & Hline).
    exists pre, l, post. repeat split; try assumption.
    rewrite Hs. now rewrite splice_insert_after.
  - exfalso. apply findIndex_None in Hi.
    apply includes_true_occurrences in Hl.
    rewrite <- (join_split u) in Hl.
    rewrite occurrences_solid_join in Hl by reflexivity.
    rewrite list_sum_zero in Hl; [lia|].
    eapply Forall_impl; [exact Hi|]. intros l H. simpl in H.
    now apply includes_false_occurrences.
Qed.

Lemma ensurePragma_counts u :
  includes pragma_marker u = false ->
  includes license_marker u = true ->
  occurrences pragma_marker (ensurePragma u) = 1%nat /\
  occurrences license_marker (ensurePragma u) = occurrences license_marker u.
Proof.
  intros Hp Hl.
  destruct (ensurePragma_absent u Hp Hl) as (pre & l & post & Hs & _ & _ & ->).
  rewrite !occurrences_insert_line by reflexivity.
  rewrite <- Hs, join_split.
  apply includes_false_occurrences in Hp. rewrite Hp.
  split; [reflexivity|].
  change (occurrences license_marker default_pragma) with 0%nat. lia.
Qed.

Lemma ensurePragma_has u :
  includes license_marker u = true -> includes pragma_marker (ensurePragma u) = true.
Proof.
  intros Hl. destruct (includes pragma_marker u) eqn:Hp.
  - now rewrite ensurePragma_present.
  - apply includes_true_occurrences.
    destruct (ensurePragma_counts u Hp Hl) as [-> _]. lia.
Qed.

Lemma ensurePragma_keeps_license u :
  includes license_marker u = true -> includes license_marker (ensurePragma u) = true.
Proof.
  intros Hl. destruct (includes pragma_marker u) eqn:Hp.
  - now rewrite ensurePragma_present.
  - apply includes_true_occurrences.
    destruct (ensurePragma_counts u Hp Hl) as [_ ->].
    now apply includes_true_occurrences.
Qed.

Lemma prepared_has_license x : includes license_marker (prepared x) = true.
Proof. apply ensurePragma_keeps_license, ensureLicense_has. Qed.

Lemma prepared_has_pragma x : includes pragma_marker (prepared x) = true.
Proof. apply ensurePragma_has, ensureLicense_has. Qed.

Lemma validate_ok x r :
  validateAndCleanContract (Str x) = Ok r ->
  r = tidy (prepared x) /\ hasDeclaration (prepared x) = true.
Proof.
  destruct x as [|c x]; [discriminate|].
  unfold validateAndCleanContract.
  destruct (hasDeclaration (prepared (c :: x))); [|discriminate].
  cbn [negb]. intros [= <-]. now split.
Qed.

(** C7, amended: when the sanitizer returns [r] for [x], and [r] is left as
    it is by steps 1 to 3 and still holds one of "contract ", "interface ",
    "library ", the sanitizer returns [r] for [r]. *)
Theorem validateAndCleanContract_idempotent_when_stable (x r : str) :
  validateAndCleanContract (Str x) = Ok r ->
  stripNarration r = r ->
  hasDeclaration r = true ->
  validateAndCleanContract (Str r) = Ok r.
Proof.
  intros Hx Hstable Hdecl.
  destruct (validate_ok x r Hx) as [Hr _].
  assert (Hlic : includes license_marker r = true).
  { rewrite Hr. apply tidy_includes; [reflexivity | apply prepared_has_license]. }
  assert (Hpra : includes pragma_marker r = true).
  { rewrite Hr. apply tidy_includes; [reflexivity | apply prepared_has_pragma]. }
  assert (Hprep : prepared r = r).
  { unfold prepared. rewrite Hstable, ensureLicense_present, ensurePragma_present; auto. }
  assert (Htidy : tidy r = r) by (rewrite Hr; apply tidy_idem).
  destruct r as [|c r'].
  - discriminate Hdecl.
  - unfold validateAndCleanContract. rewrite Hprep, Hdecl. cbn [negb].
    now rewrite Htidy.
Qed.

(** ** Where the headers end up *)

Lemma tidy_solid_prefix w z : solid w = true -> tidy (w ++ z) = w ++ trimEnd (squeeze z).
Proof.
  intros H. destruct (solid_inv w H) as (x & w' & Hw & Hx & _ & Hlf).
  destruct (solid_last w H) as (w0 & y & Hw0 & Hy).
  rewrite tidy_eq, squeeze_word by assumption. unfold trim.
  rewrite Hw at 1. change ((x :: w') ++ squeeze z) with (x :: (w' ++ squeeze z)).
  rewrite trimStart_trimmed by assumption.
  change (x :: (w' ++ squeeze z)) with ((x :: w') ++ squeeze z).
  rewrite <- Hw, Hw0, <- !app_assoc. simpl.
  now rewrite trimEnd_upto.
Qed.

Lemma starts_two_lf_stop a c r :
  ascii_eqb c LF = false -> startsWith [LF; LF] (a ++ c :: r) = startsWith [LF; LF] a.
Proof.
  intros Hc.
  assert (Hc' : ascii_eqb LF c = false)
    by (unfold ascii_eqb in *; now rewrite Ascii.eqb_sym).
  destruct a as [|a1 [|a2 a]]; cbn -[LF]; rewrite ?Hc', ?andb_false_r; reflexivity.
Qed.

Lemma squeeze_app_stop a c r :
  ascii_eqb c LF = false -> squeeze (a ++ c :: r) = squeeze a ++ squeeze (c :: r).
Proof.
  intros Hc. induction a as [|d a IH]; [reflexivity|].
  change ((d :: a) ++ c :: r) with (d :: (a ++ c :: r)).
  rewrite !squeeze_cons, starts_two_lf_stop, IH by assumption.
  destruct (ascii_eqb d LF && startsWith [LF; LF] a); reflexivity.
Qed.

Lemma trimStart_app l r : trimStart l <> [] -> trimStart (l ++ r) = trimStart l ++ r.
Proof.
  induction l as [|c l IH]; [contradiction|].
  simpl. destruct (is_space c); [exact IH | reflexivity].
Qed.

Lemma lf_free_trimStart l : lf_free l -> lf_free (trimStart l).
Proof.
  induction 1 as [|c l Hc Hl IH]; [constructor|].
  simpl. destruct (is_space c); [assumption | now constructor].
Qed.

Lemma includes_tail p c s : includes p (c :: s) = false -> includes p s = false.
Proof. rewrite includes_cons. intros H. now apply orb_false_iff in H as [_ H]. Qed.

(** Trimming the start of a text in which a line holding the marker follows
    a part without it: the line keeps the marker. *)
Lemma trimStart_marked_line (a l r : str) :
  includes license_marker a = false ->
  includes license_marker l = true ->
  lf_free l ->
  exists a2 l2,
    trimStart (a ++ l ++ r) = a2 ++ l2 ++ r /\
    includes license_marker a2 = false /\
    includes license_marker l2 = true /\
    lf_free l2.
Proof.
  intros Ha Hl Hfree. induction a as [|c a IH].
  - exists [], (trimStart l).
    assert (Hocc : occurrences license_marker (trimStart l) = occurrences license_marker l)
      by (apply occurrences_trimStart; reflexivity).
    assert (Hin : includes license_marker (trimStart l) = true).
    { apply includes_true_occurrences. rewrite Hocc. now apply includes_true_occurrences. }
    repeat split.
    + simpl. apply trimStart_app. intros E. rewrite E in Hin. discriminate.
    + assumption.
    + now apply lf_free_trimStart.
  - change ((c :: a) ++ l ++ r) with (c :: (a ++ l ++ r)). simpl trimStart.
    destruct (is_space c).
    + apply IH. eapply includes_tail. exact Ha.
    + exists (c :: a), l. repeat split; assumption.
Qed.

Lemma after_line_head post : after_line post = [] \/ exists r, after_line post = LF :: r.
Proof. destruct post as [|l post]; [now left | right; now eexists]. Qed.

Lemma squeeze_lf_head s :
  (s = [] \/ exists r, s = LF :: r) -> squeeze s = [] \/ exists r, squeeze s = LF :: r.
Proof.
  intros [->|[r ->]]; [now left|]. right.
  apply squeeze_head_lf. rewrite lf_run_cons, ascii_eqb_refl. lia.
Qed.

Lemma trimEnd_lf_head s :
  (s = [] \/ exists r, s = LF :: r) -> trimEnd s = [] \/ exists r, trimEnd s = LF :: r.
Proof.
  intros [->|[r ->]]; [now left|].
  rewrite trimEnd_cons. destruct (trimEnd r).
  - now left.
  - right. now eexists.
Qed.

(** The shape of the tidied text around an inserted pragma line. *)
Lemma tidy_around_pragma pre l post :
  Forall (fun p => includes license_marker p = false) pre ->
  includes license_marker l = true ->
  lf_free l ->
  exists a l2 b,
    tidy (join [LF] (pre ++ l :: default_pragma :: post)) =
      a ++ l2 ++ LF :: default_pragma ++ b /\
    includes license_marker a = false /\
    includes license_marker l2 = true /\
    lf_free l2 /\
    (b = [] \/ exists b', b = LF :: b').
Proof.
  intros Hpre Hl Hfree.
  rewrite join_around.
  change (after_line (default_pragma :: post)) with (LF :: default_pragma ++ after_line post).
  destruct l as [|c l']; [discriminate Hl|].
  assert (Hc : ascii_eqb c LF = false) by (now inversion Hfree).
  rewrite tidy_eq.
  change (before_line pre ++ (c :: l') ++ LF :: default_pragma ++ after_line post)
    with (before_line pre ++ c :: (l' ++ LF :: default_pragma ++ after_line post)).
  rewrite squeeze_app_stop by assumption.
  change (c :: (l' ++ LF :: default_pragma ++ after_line post))
    with ((c :: l') ++ LF :: default_pragma ++ after_line post).
  rewrite (squeeze_word (c :: l')) by assumption.
  rewrite squeeze_cons.
  replace (startsWith [LF; LF] (default_pragma ++ after_line post)) with false by reflexivity.
  rewrite andb_false_r.
  rewrite (squeeze_word default_pragma) by (apply solid_lf_free; reflexivity).
  assert (Ha : includes license_marker (squeeze (before_line pre)) = false).
  { apply includes_false_occurrences.
    destruct (solid_cons license_marker eq_refl) as (x & m & Hw & Hlf).
    rewrite Hw, occurrences_squeeze, <- Hw by assumption.
    now apply occurrences_solid_before_line. }
  unfold trim.
  destruct (trimStart_marked_line (squeeze (before_line pre)) (c :: l')
              (LF :: default_pragma ++ squeeze (after_line post)) Ha Hl Hfree)
    as (a2 & l2 & -> & Ha2 & Hl2 & Hfree2).
  exists a2, l2, (trimEnd (squeeze (after_line post))).
  split; [|repeat split; try assumption].
  - destruct (solid_last default_pragma eq_refl) as (w0 & y & Hw0 & Hy).
    rewrite Hw0, <- !app_assoc. simpl.
    replace (a2 ++ l2 ++ LF :: w0 ++ y :: squeeze (after_line post))
      with ((a2 ++ l2 ++ LF :: w0) ++ y :: squeeze (after_line post))
      by (now rewrite <- !app_assoc).
    rewrite trimEnd_upto by assumption. now rewrite <- !app_assoc.
  - apply trimEnd_lf_head, squeeze_lf_head, after_line_head.
Qed.

Lemma ensureLicense_pragma_count t :
  occurrences pragma_marker (ensureLicense t) = occurrences pragma_marker t.
Proof.
  destruct (includes license_marker t) eqn:H.
  - now rewrite ensureLicense_present.
  - now destruct (ensureLicense_absent t H) as (_ & _ & ->).
Qed.

Lemma ensurePragma_license_count u :
  includes license_marker u = true ->
  occurrences license_marker (ensurePragma u) = occurrences license_marker u.
Proof.
  intros Hl. destruct (includes pragma_marker u) eqn:Hp.
  - now rewrite ensurePragma_present.
  - now destruct (ensurePragma_counts u Hp Hl).
Qed.

(** With the license line put in front, the text still starts with it after
    the pragma step. *)
Lemma ensurePragma_keeps_front t :
  exists rest, ensurePragma (default_license ++ LF :: t) = default_license ++ LF :: rest.
Proof.
  destruct (includes pragma_marker (default_license ++ LF :: t)) eqn:Hp.
  - exists t. now rewrite ensurePragma_present.
  - assert (Hl : includes license_marker (default_license ++ LF :: t) = true).
    { apply (includes_app license_marker (lit "// ") (lit ": MIT" ++ LF :: t)). }
    destruct (ensurePragma_absent _ Hp Hl) as (pre & l & post & Hs & Hpre & Hline & ->).
    rewrite split_app_lf in Hs by (apply solid_lf_free; reflexivity).
    destruct pre as [|p pre].
    + injection Hs as <- _. exists (default_pragma ++ after_line post).
      change ([] ++ default_license :: default_pragma :: post)
        with (default_license :: default_pragma :: post).
      rewrite join_cons, join_after. reflexivity.
    + injection Hs as <- _. inversion Hpre as [|? ? Hbad _]. discriminate Hbad.
Qed.

(** A plain contract: its cleaned form is a fixed point. *)
Lemma validateAndCleanContract_idempotent_when_stable_witness :
  validateAndCleanContract (Str plain_contract_clean) = Ok plain_contract_clean.
Proof.
  apply (validateAndCleanContract_idempotent_when_stable plain_contract
           plain_contract_clean).
  - vm_compute. reflexivity.
  - vm_compute. reflexivity.
  - vm_compute. reflexivity.
Defined.

(** C7 as stated fails: this text holds the keyword "library ", the
    sanitizer returns a text for it, and throws on that text. *)
Lemma validateAndCleanContract_idempotent_counterexample :
  has "library " trailing_keyword_text = true /\
  exists r,
    validateAndCleanContract (Str trailing_keyword_text) = Ok r /\
    validateAndCleanContract (Str r) = Err no_contract.
Proof.
  split; [vm_compute; reflexivity|].
  exists (tidy (prepared trailing_keyword_text)).
  split; vm_compute; reflexivity.
Qed.

(** C6, amended: let [t] be what steps 1 to 3 leave of an input the
    sanitizer accepts, and [r] the result.  If [t] holds no license marker,
    [r] starts with the default license line and holds the marker once; if it
    holds one, [r] holds the marker as often as [t].  If [t] holds no pragma
    marker, [r] holds it once, in the default pragma line, which is the line
    right after the first line that holds the license marker; if it holds
    one, [r] holds it as often as [t]. *)
Theorem validateAndCleanContract_license_and_pragma (x r : str) :
  validateAndCleanContract (Str x) = Ok r ->
  (if includes license_marker (stripNarration x)
   then occurrences license_marker r = occurrences license_marker (stripNarration x)
   else startsWith default_license r = true /\ occurrences license_marker r = 1%nat) /\
  (if includes pragma_marker (stripNarration x)
   then occurrences pragma_marker r = occurrences pragma_marker (stripNarration x)
   else occurrences pragma_marker r = 1%nat /\
        exists a l b,
          r = a ++ l ++ LF :: default_pragma ++ b /\
          includes license_marker a = false /\
          includes license_marker l = true /\
          lf_free l /\
          (b = [] \/ exists b', b = LF :: b')).
Proof.
  intros Hx. destruct (validate_ok x r Hx) as [-> _].
  unfold prepared. set (t := stripNarration x).
  pose proof (ensureLicense_has t) as Hlic.
  split.
  - rewrite occurrences_tidy by reflexivity.
    rewrite ensurePragma_license_count by assumption.
    destruct (includes license_marker t) eqn:Ht.
    + now rewrite ensureLicense_present.
    + destruct (ensureLicense_absent t Ht) as (He & Hone & _).
      split; [|assumption].
      rewrite He. destruct (ensurePragma_keeps_front t) as [rest ->].
      rewrite tidy_solid_prefix by reflexivity. apply startsWith_app.
  - rewrite occurrences_tidy by reflexivity.
    destruct (includes pragma_marker t) eqn:Ht.
    + rewrite ensurePragma_present.
      * apply ensureLicense_pragma_count.
      * apply includes_true_occurrences. rewrite ensureLicense_pragma_count.
        now apply includes_true_occurrences.
    + assert (Hp : includes pragma_marker (ensureLicense t) = false).
      { apply includes_false_occurrences. rewrite ensureLicense_pragma_count.
        now apply includes_false_occurrences. }
      destruct (ensurePragma_counts _ Hp Hlic) as [Hone _].
      split; [assumption|].
      destruct (ensurePragma_absent _ Hp Hlic) as (pre & l & post & Hs & Hpre & Hline & ->).
      apply tidy_around_pragma; try assumption.
      pose proof (split_lf_free (ensureLicense t)) as Hall.
      rewrite Hs in Hall. apply Forall_app in Hall as [_ Hall].
      now inversion Hall.
Qed.

(** A plain contract without headers gets each of them once. *)
Lemma validateAndCleanContract_license_and_pragma_witness :
  (startsWith default_license plain_contract_clean = true /\
   occurrences license_marker plain_contract_clean = 1%nat) /\
  occurrences pragma_marker plain_contract_clean = 1%nat.
Proof.
  assert (Hx : validateAndCleanContract (Str plain_contract) = Ok plain_contract_clean)
    by (vm_compute; reflexivity).
  destruct (validateAndCleanContract_license_and_pragma plain_contract
              plain_contract_clean Hx) as [Hl Hp].
  change (includes license_marker (stripNarration plain_contract)) with false in Hl.
  change (includes pragma_marker (stripNarration plain_contract)) with false in Hp.
  split; [exact Hl | exact (proj1 Hp)].
Defined.

(** C6 as stated fails: this input holds no license marker, the sanitizer
    accepts it, and the result does not hold the default license line. *)
Lemma validateAndCleanContract_license_counterexample :
  includes license_marker split_marker_text = false /\
  validateAndCleanContract (Str split_marker_text) =
    Ok (lit "// SPDX-License-Identifier: GPL-3.0" ++ [LF] ++ default_pragma ++ [LF] ++
        lit "contract A {}") /\
  includes default_license
    (lit "// SPDX-License-Identifier: GPL-3.0" ++ [LF] ++ default_pragma ++ [LF] ++
     lit "contract A {}") = false.
Proof. vm_compute. repeat split. Qed.

Lemma hasDeclaration_word s : hasDeclaration s = true -> hasDeclarationWord (tidy s) = true.
Proof.
  unfold hasDeclaration, hasDeclarationWord, has. intros H.
  apply orb_true_iff in H as [H|H]; [apply orb_true_iff in H as [H|H]|].
  - apply (includes_shorter (lit "contract") (lit " ")) in H.
    rewrite tidy_includes; [reflexivity | reflexivity | assumption].
  - apply (includes_shorter (lit "interface") (lit " ")) in H.
    rewrite (tidy_includes (lit "interface")); [now rewrite orb_true_r | reflexivity | assumption].
  - apply (includes_shorter (lit "library") (lit " ")) in H.
    rewrite (tidy_includes (lit "library")); [apply orb_true_r | reflexivity | assumption].
Qed.

(** ** Sanitizer: when it throws *)

Lemma prepared_empty : hasDeclaration (prepared []) = false.
Proof. vm_compute. reflexivity. Qed.

(** C8, amended: [validateAndCleanContract] throws exactly when its argument
    is not a non-empty string or the text after steps 1 to 5, that is before
    the blank lines are collapsed and the text is trimmed, holds none of
    "contract ", "interface ", "library "; for a string the first case is
    part of the second.  Otherwise it returns the tidied text: no step throws. *)
Theorem validateAndCleanContract_throws_iff (v : value) :
  (throws (validateAndCleanContract v) <->
   forall s, v = Str s -> hasDeclaration (prepared s) = false) /\
  (forall s, v = Str s -> hasDeclaration (prepared s) = true ->
   validateAndCleanContract v = Ok (tidy (prepared s))).
Proof.
  destruct v as [| | | |s|]; try (split; [split; [discriminate | exact (fun _ => I)] | discriminate]).
  destruct s as [|c s].
  - split; [split|].
    + intros _ s [= <-]. apply prepared_empty.
    + intros _. exact I.
    + intros s [= <-]. rewrite prepared_empty. discriminate.
  - unfold validateAndCleanContract.
    destruct (hasDeclaration (prepared (c :: s))) eqn:Hd; cbn [negb throws].
    + split; [split|].
      * intros [].
      * intros H. specialize (H _ eq_refl). congruence.
      * intros s' [= <-] _. reflexivity.
    + split; [split|].
      * intros _ s' [= <-]. exact Hd.
      * intros _. exact I.
      * intros s' [= <-]. congruence.
Qed.

(** The guard at the head of the function throws before any step runs. *)
Example validateAndCleanContract_guard :
  validateAndCleanContract Null = Err invalid_code /\
  validateAndCleanContract (Str []) = Err invalid_code.
Proof. split; reflexivity. Qed.

(** C8 as stated fails: on this text the sanitizer returns, although the
    text it returns, after all six steps, holds none of the three keywords. *)
Lemma validateAndCleanContract_final_check_counterexample :
  validateAndCleanContract (Str trailing_keyword_text) =
    Ok (tidy (prepared trailing_keyword_text)) /\
  hasDeclaration (tidy (prepared trailing_keyword_text)) = false /\
  ~ (throws (validateAndCleanContract (Str trailing_keyword_text)) <->
     hasDeclaration (tidy (prepared trailing_keyword_text)) = false).
Proof.
  assert (H1 : validateAndCleanContract (Str trailing_keyword_text) =
               Ok (tidy (prepared trailing_keyword_text))) by (vm_compute; reflexivity).
  assert (H2 : hasDeclaration (tidy (prepared trailing_keyword_text)) = false)
    by (vm_compute; reflexivity).
  split; [exact H1|]. split; [exact H2|].
  rewrite H1. intros [_ H]. exact (H H2).
Qed.

(** ** The artifact of a successful response *)

(** C1, amended: the artifact of every success response is what
    [validateAndCleanContract] returns for the text the provider gave, so the
    caller never gets text that did not go through the sanitizer; the text
    tested before the final clean-up holds one of "contract ", "interface ",
    "library ", and the artifact holds one of the bare words "contract",
    "interface", "library". *)
Theorem handler_success_is_sanitized (m : rate_map) (now : Z) (env : option str)
    (b : backend) (req : request) (c : str) (ty : value) :
  response_of (handler m now env b req) = Success c ty ->
  exists raw,
    snd (generateContract (new_LLMService env) b) = Ok (Str raw) /\
    validateAndCleanContract (Str raw) = Ok c /\
    hasDeclaration (prepared raw) = true /\
    hasDeclarationWord c = true.
Proof.
  unfold handler, response_of.
  destruct (str_eqb (method req) (lit "OPTIONS")); [discriminate|].
  destruct (negb (str_eqb (method req) (lit "POST"))); [discriminate|].
  destruct (checkRateLimit m now (clientIp req) default_limit default_window) as [adm m1].
  destruct (negb adm); [discriminate|].
  destruct (req_body req) as [bd|]; [|discriminate].
  destruct (requirements_text (requirements bd)) as [reqs|]; [|discriminate].
  destruct (5000 <? length reqs)%nat; [discriminate|].
  destruct (log_exn (contractType bd)); [discriminate|].
  destruct (prompt_exn (detectedType bd reqs) (options bd)); [discriminate|].
  destruct (generateContract (new_LLMService env) b) as [evs [v|e]]; [|discriminate].
  destruct (validateAndCleanContract v) as [cleaned|e] eqn:Hv; [|discriminate].
  cbn [fst]. intros [= <- _].
  destruct v as [| | | |[|x raw]|]; try discriminate.
  exists (x :: raw). cbn [snd]. unfold validateAndCleanContract in Hv |- *.
  destruct (hasDeclaration (prepared (x :: raw))) eqn:Hd; [|discriminate].
  cbn [negb] in Hv |- *. injection Hv as <-.
  split; [reflexivity|]. split; [reflexivity|]. split; [reflexivity|].
  now apply hasDeclaration_word.
Qed.

(** C1 as stated fails: this request succeeds, and its artifact holds none
    of "contract ", "interface ", "library ". *)
Lemma handler_success_keyword_counterexample :
  exists c ty,
    response_of (handler ∅ 1000 None (answering trailing_keyword_text) library_request) =
      Success c ty /\
    hasDeclaration c = false.
Proof.
  exists (tidy (prepared trailing_keyword_text)), (Str (lit "custom")).
  split; [|vm_compute; reflexivity].
  rewrite handler_post.
  - vm_compute. reflexivity.
  - reflexivity.
  - fresh_identity.
Qed.

(** A successful request: the artifact is the sanitizer's output. *)
Lemma handler_success_is_sanitized_witness :
  exists raw,
    snd (generateContract (new_LLMService None) (answering plain_contract)) = Ok (Str raw) /\
    validateAndCleanContract (Str raw) = Ok plain_contract_clean /\
    hasDeclaration (prepared raw) = true /\
    hasDeclarationWord plain_contract_clean = true.
Proof.
  apply (handler_success_is_sanitized ∅ 1000 None (answering plain_contract)
           library_request plain_contract_clean (Str (lit "custom"))).
  rewrite handler_post.
  - vm_compute. reflexivity.
  - reflexivity.
  - fresh_identity.
Defined.

(** * Further properties *)

Lemma str_eqb_eq a : forall b, str_eqb a b = true <-> a = b.
Proof.
  induction a as [|x a IH]; intros [|y b]; simpl; split; try discriminate; try reflexivity.
  - intros H. apply andb_true_iff in H as [Hxy Hab].
    apply ascii_eqb_eq in Hxy. apply IH in Hab. congruence.
  - intros [= <- <-]. rewrite ascii_eqb_refl. now apply IH.
Qed.

Lemma str_eqb_neq a b : str_eqb a b = false <-> a <> b.
Proof.
  destruct (str_eqb a b) eqn:E; split; try discriminate; try congruence.
  - apply str_eqb_eq in E. contradiction.
  - intros _ Heq. apply str_eqb_eq in Heq. congruence.
Qed.

(** ** Governor *)

Lemma checkRateLimit_other_identities_aux (m : rate_map) (now : Z) (ip ip' : str)
    (limit : nat) (window : Z) :
  ip' <> ip ->
  snd (checkRateLimit m now ip limit window) !! ip' = m !! ip'.
Proof.
  intros Hne. unfold checkRateLimit.
  destruct (limit <=? _)%nat; cbn [snd]; [reflexivity|].
  now rewrite lookup_insert_ne.
Qed.

(** X1: a check of one identity leaves the record of every other identity as
    it was, and no identity that had a record loses it: [rateLimitMap] is
    never swept. *)
Theorem checkRateLimit_other_identities (m : rate_map) (now : Z) (ip ip' : str)
    (limit : nat) (window : Z) :
  ip' <> ip ->
  snd (checkRateLimit m now ip limit window) !! ip' = m !! ip' /\
  forall ip0, is_Some (m !! ip0) -> is_Some (snd (checkRateLimit m now ip limit window) !! ip0).
Proof.
  intros Hne. split; [now apply checkRateLimit_other_identities_aux|].
  intros ip0 Hsome. unfold checkRateLimit.
  destruct (limit <=? _)%nat; cbn [snd]; [assumption|].
  destruct (decide (ip0 = ip)) as [->|Hn].
  - rewrite lookup_insert_eq. eauto.
  - now rewrite lookup_insert_ne by congruence.
Qed.

Lemma checkRateLimit_other_identities_witness :
  snd (checkRateLimit {[ lit "198.51.100.2" := [5] ]} 1000 (lit "203.0.113.7")
         default_limit default_window) !! lit "198.51.100.2" = Some [5].
Proof.
  destruct (checkRateLimit_other_identities {[ lit "198.51.100.2" := [5] ]} 1000
              (lit "203.0.113.7") (lit "198.51.100.2") default_limit default_window)
    as [Hsame _].
  - apply str_eqb_neq. reflexivity.
  - rewrite Hsame. apply lookup_singleton_eq.
Defined.

Lemma checkRateLimit_cases (m : rate_map) (now : Z) (ip : str) (limit : nat) (window : Z) :
  (checkRateLimit m now ip limit window = (false, m) /\
   (limit <= length (live window now (recorded m ip)))%nat) \/
  (checkRateLimit m now ip limit window =
     (true, <[ip := live window now (recorded m ip) ++ [now]]> m) /\
   (length (live window now (recorded m ip)) < limit)%nat).
Proof.
  destruct (Nat.leb_spec limit (length (live window now (recorded m ip)))) as [H|H].
  - left. split; [now apply checkRateLimit_reject | assumption].
  - right. split; [now apply checkRateLimit_grant | assumption].
Qed.

Lemma checkRateLimit_well_kept (m : rate_map) (now : Z) (ip : str) (limit : nat) (window : Z) :
  well_kept limit m -> well_kept limit (snd (checkRateLimit m now ip limit window)).
Proof.
  intros Hm.
  destruct (checkRateLimit_cases m now ip limit window) as [[-> _]|[-> Hlt]]; [exact Hm|].
  cbn [snd]. intros ip' r Hr.
  destruct (decide (ip' = ip)) as [->|Hne].
  - rewrite lookup_insert_eq in Hr. injection Hr as <-. split.
    + intros E. apply app_eq_nil in E as [_ E]. discriminate.
    + rewrite length_app. simpl. lia.
  - rewrite lookup_insert_ne in Hr by congruence. exact (Hm ip' r Hr).
Qed.

(** X2: in a map that checks alone have filled, starting from the empty one,
    every record is non-empty and holds at most [limit] times. *)
Theorem rateLimitMap_records_bounded (limit : nat) (window : Z) (calls : list (str * Z)) :
  forall ip r,
    run_checks ∅ limit window calls !! ip = Some r ->
    r <> [] /\ (length r <= limit)%nat.
Proof.
  assert (H : forall m, well_kept limit m -> well_kept limit (run_checks m limit window calls)).
  { induction calls as [|[ip now] rest IH]; intros m Hm; [exact Hm|].
    cbn [run_checks]. apply IH. now apply checkRateLimit_well_kept. }
  apply H. intros ip r Hr. rewrite lookup_empty in Hr. discriminate.
Qed.

Lemma rateLimitMap_records_bounded_witness :
  run_checks ∅ 1 default_window
    [(lit "203.0.113.7", 0); (lit "203.0.113.7", 5)] !! lit "203.0.113.7" = Some [0] /\
  [0] <> [] /\ (length [0] <= 1)%nat.
Proof.
  assert (H : run_checks ∅ 1 default_window
                [(lit "203.0.113.7", 0); (lit "203.0.113.7", 5)] !! lit "203.0.113.7"
              = Some [0]).
  { vm_compute. reflexivity. }
  split; [exact H|].
  exact (rateLimitMap_records_bounded 1 default_window
           [(lit "203.0.113.7", 0); (lit "203.0.113.7", 5)] (lit "203.0.113.7") [0] H).
Defined.

(** ** Gateway *)

Lemma attempt_once_quiet svc b a :
  (posts (fst (attempt_once svc b a)) <= 1)%nat /\ slept (fst (attempt_once svc b a)) = 0.
Proof.
  unfold attempt_once.
  destruct (str_eqb (provider svc) (lit "openai")); [split; simpl; lia|].
  destruct (str_eqb (provider svc) (lit "anthropic")); split; simpl; lia.
Qed.

Lemma posts_app evs evs' : posts (evs ++ evs') = (posts evs + posts evs')%nat.
Proof. induction evs as [|[p k|ms] evs IH]; simpl; auto. Qed.

Lemma slept_app evs evs' : slept (evs ++ evs') = slept evs + slept evs'.
Proof. induction evs as [|[p k|ms] evs IH]; simpl; lia. Qed.

Lemma retry_loop_bounded svc b : forall left a,
  (a + left = S (maxRetries svc))%nat ->
  (posts (fst (retry_loop svc b left a)) <= left)%nat /\
  0 <= slept (fst (retry_loop svc b left a)) /\
  slept (fst (retry_loop svc b left a)) + 2 ^ Z.of_nat a * 1000 <=
    2 ^ Z.of_nat (Nat.max a (maxRetries svc)) * 1000.
Proof.
  assert (Hmono : forall a c : nat, (a <= c)%nat -> 2 ^ Z.of_nat a <= 2 ^ Z.of_nat c).
  { intros. apply Z.pow_le_mono_r; lia. }
  induction left as [|left IH]; intros a Ha.
  - cbn [retry_loop fst posts slept]. specialize (Hmono a (Nat.max a (maxRetries svc))). lia.
  - rewrite retry_loop_step.
    pose proof (attempt_once_quiet svc b a) as [Hp1 Hs1].
    pose proof (Hmono a (Nat.max a (maxRetries svc)) ltac:(lia)) as Hle.
    destruct (attempt_once svc b a) as [evs [v|e]]; cbn [fst] in Hp1, Hs1.
    + cbn [fst]. lia.
    + destruct (Nat.eqb_spec a (maxRetries svc)) as [Heq|Hne].
      * cbn [fst]. lia.
      * specialize (IH (S a) ltac:(lia)).
        destruct (retry_loop svc b left (S a)) as [evs' r']. cbn [fst] in *.
        rewrite posts_app, slept_app. cbn [posts slept].
        replace (Nat.max (S a) (maxRetries svc)) with (maxRetries svc) in IH by lia.
        replace (Nat.max a (maxRetries svc)) with (maxRetries svc) by lia.
        assert (H2 : 2 ^ Z.of_nat (S a) = 2 * 2 ^ Z.of_nat a).
        { rewrite Nat2Z.inj_succ, Z.pow_succ_r; lia. }
        assert (Hpos : 0 < 2 ^ Z.of_nat a) by (apply Z.pow_pos_nonneg; lia).
        lia.
Qed.

(** X3: whatever the backend does, [generateContract] posts at most
    [maxRetries] times and sleeps at most [(2^maxRetries - 2) * 1000] ms, the
    sum of the waits of 2, 4, ... seconds after all attempts but the last
    (nothing with a budget of one attempt or none). *)
Theorem generateContract_bounded (svc : LLMService) (b : backend) :
  (posts (fst (generateContract svc b)) <= maxRetries svc)%nat /\
  0 <= slept (fst (generateContract svc b)) <=
    (2 ^ Z.of_nat (Nat.max 1 (maxRetries svc)) - 2) * 1000.
Proof.
  unfold generateContract.
  destruct (retry_loop_bounded svc b (maxRetries svc) 1 ltac:(lia)) as (Hp & H0 & Hs).
  change (2 ^ Z.of_nat 1) with 2 in Hs. lia.
Qed.

Lemma trace_step svc b c first :
  trace svc b (S c) first =
    fst (attempt_once svc b first) ++
    match c with
    | O => []
    | S _ => Delay (2 ^ Z.of_nat first * 1000) :: trace svc b c (S first)
    end.
Proof. reflexivity. Qed.

(** What the loop returns, read backwards. *)
Lemma retry_loop_outcome svc b : forall left a,
  (a + left = S (maxRetries svc))%nat ->
  (1 <= left)%nat ->
  match snd (retry_loop svc b left a) with
  | Ok v =>
      exists k, (a <= k <= maxRetries svc)%nat /\
        snd (attempt_once svc b k) = Ok v /\
        (forall j, (a <= j < k)%nat -> exists e, fails_with svc b j e) /\
        fst (retry_loop svc b left a) = trace svc b (S (k - a)) a
  | Err e =>
      exists e', fails_with svc b (maxRetries svc) e' /\
        (forall j, (a <= j < maxRetries svc)%nat -> exists e'', fails_with svc b j e'') /\
        e = exhausted svc e' /\
        fst (retry_loop svc b left a) = trace svc b left a
  end.
Proof.
  induction left as [|left IH]; intros a Ha Hleft; [lia|].
  rewrite retry_loop_step.
  destruct (attempt_once svc b a) as [evs [v|e]] eqn:Hatt.
  - cbn [fst snd]. exists a. split; [lia|]. split; [now rewrite Hatt|].
    split; [intros j Hj; lia|].
    replace (a - a)%nat with 0%nat by lia. rewrite trace_step, Hatt, app_nil_r. reflexivity.
  - destruct (Nat.eqb_spec a (maxRetries svc)) as [Heq|Hne].
    + cbn [fst snd]. exists e. assert (left = 0%nat) by lia. subst left.
      split; [unfold fails_with; now rewrite <- Heq, Hatt|].
      split; [intros j Hj; lia|]. split; [reflexivity|].
      rewrite trace_step, Hatt, app_nil_r. reflexivity.
    + assert (Hl : (1 <= left)%nat) by lia.
      specialize (IH (S a) ltac:(lia) Hl).
      destruct (retry_loop svc b left (S a)) as [evs' [v'|e']]; cbn [fst snd] in *.
      * destruct IH as (k & Hk & Hok & Hfail & Hev). exists k.
        split; [lia|]. split; [assumption|]. split.
        -- intros j Hj. destruct (Nat.eq_dec j a) as [->|Hja].
           ++ exists e. unfold fails_with. now rewrite Hatt.
           ++ apply Hfail. lia.
        -- replace (S (k - a)) with (S (S (k - S a))) by lia.
           rewrite trace_step, Hatt, Hev. reflexivity.
      * destruct IH as (e0 & Hlast & Hfail & He & Hev). exists e0.
        split; [assumption|]. split.
        -- intros j Hj. destruct (Nat.eq_dec j a) as [->|Hja].
           ++ exists e. unfold fails_with. now rewrite Hatt.
           ++ apply Hfail. lia.
        -- split; [assumption|].
           destruct left as [|left']; [lia|].
           rewrite trace_step, Hatt, Hev. reflexivity.
Qed.

(** X4: with a budget of one attempt or more, a text that [generateContract]
    returns is the answer of the first attempt that did not fail, and an
    error it throws wraps the message of the last of [maxRetries] failed
    attempts; in both cases the events are those of the attempts made, with
    the waits between them. *)
Theorem generateContract_outcome (svc : LLMService) (b : backend) :
  (1 <= maxRetries svc)%nat ->
  match snd (generateContract svc b) with
  | Ok v =>
      exists k, (1 <= k <= maxRetries svc)%nat /\
        snd (attempt_once svc b k) = Ok v /\
        (forall j, (1 <= j < k)%nat -> exists e, fails_with svc b j e) /\
        fst (generateContract svc b) = trace svc b k 1
  | Err e =>
      exists e', fails_with svc b (maxRetries svc) e' /\
        (forall j, (1 <= j < maxRetries svc)%nat -> exists e'', fails_with svc b j e'') /\
        e = exhausted svc e' /\
        fst (generateContract svc b) = trace svc b (maxRetries svc) 1
  end.
Proof.
  intros Hn. unfold generateContract.
  pose proof (retry_loop_outcome svc b (maxRetries svc) 1 ltac:(lia) Hn) as H.
  destruct (snd (retry_loop svc b (maxRetries svc) 1)) as [v|e].
  - destruct H as (k & Hk & Hok & Hfail & Hev). exists k.
    repeat split; try assumption; try lia.
    rewrite Hev. f_equal. lia.
  - exact H.
Qed.

Lemma generateContract_outcome_witness :
  exists k, (1 <= k <= 3)%nat /\
    fst (generateContract (new_LLMService None) (answering plain_contract)) =
      trace (new_LLMService None) (answering plain_contract) k 1.
Proof.
  assert (H : (1 <= maxRetries (new_LLMService None))%nat) by (simpl; lia).
  pose proof (generateContract_outcome (new_LLMService None) (answering plain_contract) H)
    as Hout.
  change (snd (generateContract (new_LLMService None) (answering plain_contract)))
    with (Ok (Str plain_contract)) in Hout.
  destruct Hout as (k & Hk & _ & _ & Hev). exists k. split; assumption.
Defined.

Lemma attempt_once_unknown svc b k :
  unknown_provider svc -> attempt_once svc b k = ([], Err (unsupported_error svc)).
Proof. intros [H1 H2]. unfold attempt_once. now rewrite H1, H2. Qed.

Lemma posts_trace_unknown svc b : forall count first,
  unknown_provider svc -> posts (trace svc b count first) = 0%nat.
Proof.
  induction count as [|c IH]; intros first Hu; [reflexivity|].
  rewrite trace_step, attempt_once_unknown by assumption. cbn [fst app].
  destruct c; [reflexivity|]. cbn [posts]. now apply IH.
Qed.

Lemma slept_trace_unknown svc b : forall count first,
  unknown_provider svc ->
  slept (trace svc b (S count) first) =
    (2 ^ Z.of_nat (first + count) - 2 ^ Z.of_nat first) * 1000.
Proof.
  induction count as [|c IH]; intros first Hu.
  - rewrite trace_step, attempt_once_unknown by assumption. cbn [fst app slept].
    rewrite Nat.add_0_r. lia.
  - rewrite trace_step, attempt_once_unknown by assumption. cbn [fst app slept].
    rewrite IH by assumption.
    replace (first + S c)%nat with (S first + c)%nat by lia.
    rewrite (Nat2Z.inj_succ first), Z.pow_succ_r by lia. lia.
Qed.

(** X5: an unknown provider is not found out before the loop: every attempt
    throws "Unsupported LLM provider", nothing is posted, and the function
    still sleeps through the whole backoff before it gives up. *)
Theorem generateContract_unknown_provider (svc : LLMService) (b : backend) :
  unknown_provider svc ->
  (1 <= maxRetries svc)%nat ->
  snd (generateContract svc b) = Err (exhausted svc (unsupported_error svc)) /\
  posts (fst (generateContract svc b)) = 0%nat /\
  slept (fst (generateContract svc b)) = (2 ^ Z.of_nat (maxRetries svc) - 2) * 1000.
Proof.
  intros Hu Hn. unfold generateContract.
  pose proof (retry_loop_outcome svc b (maxRetries svc) 1 ltac:(lia) Hn) as H.
  destruct (retry_loop svc b (maxRetries svc) 1) as [evs [v|e]]; cbn [fst snd] in *.
  - destruct H as (k & _ & Hok & _). rewrite attempt_once_unknown in Hok by assumption.
    discriminate Hok.
  - destruct H as (e' & Hlast & _ & -> & ->).
    unfold fails_with in Hlast. rewrite attempt_once_unknown in Hlast by assumption.
    injection Hlast as <-. split; [reflexivity|].
    split; [now apply posts_trace_unknown|].
    destruct (maxRetries svc) as [|n]; [lia|].
    rewrite slept_trace_unknown by assumption.
    replace (1 + n)%nat with (S n) by lia. reflexivity.
Qed.

Lemma generateContract_unknown_provider_witness :
  snd (generateContract (new_LLMService (Some (lit "cohere"))) (answering plain_contract)) =
    Err (Throw (lit "Error")
           (lit "LLM generation failed after 3 attempts: Unsupported LLM provider: cohere")) /\
  posts (fst (generateContract (new_LLMService (Some (lit "cohere")))
                (answering plain_contract))) = 0%nat /\
  slept (fst (generateContract (new_LLMService (Some (lit "cohere")))
                (answering plain_contract))) = 6000.
Proof.
  destruct (generateContract_unknown_provider (new_LLMService (Some (lit "cohere")))
              (answering plain_contract)) as (Herr & Hposts & Hslept).
  - split; reflexivity.
  - simpl. lia.
  - rewrite Herr, Hposts, Hslept. repeat split.
Defined.

(** ** Handler *)

(** What a refused check makes of a POST. *)
Lemma handler_refused (m m' : rate_map) (now : Z) (env : option str)
    (b : backend) (req : request) :
  method req = lit "POST" ->
  checkRateLimit m now (clientIp req) default_limit default_window = (false, m') ->
  handler m now env b req = (too_many_requests, m', []).
Proof.
  intros Hm Hc. unfold handler. rewrite Hm.
  change (str_eqb (lit "POST") (lit "OPTIONS")) with false.
  change (str_eqb (lit "POST") (lit "POST")) with true.
  cbn [negb]. now rewrite Hc.
Qed.

(** The map a request leaves is the one its admission check leaves. *)
Lemma handler_map (m : rate_map) (now : Z) (env : option str) (b : backend) (req : request) :
  map_of (handler m now env b req) =
    if str_eqb (method req) (lit "POST")
    then snd (checkRateLimit m now (clientIp req) default_limit default_window)
    else m.
Proof.
  destruct (str_eqb (method req) (lit "POST")) eqn:Hp.
  - apply str_eqb_eq in Hp.
    destruct (checkRateLimit_cases m now (clientIp req) default_limit default_window)
      as [[Hc Hfull]|[Hc Hroom]]; rewrite Hc; cbn [snd].
    + now rewrite (handler_refused m m now env b req Hp Hc).
    + rewrite handler_post by assumption.
      destruct (req_body req) as [bd|]; [|reflexivity].
      destruct (requirements_text (requirements bd)) as [reqs|]; [|reflexivity].
      destruct (5000 <? length reqs)%nat; [reflexivity|].
      destruct (log_exn (contractType bd)); [reflexivity|].
      destruct (prompt_exn (detectedType bd reqs) (options bd)); [reflexivity|].
      destruct (generateContract (new_LLMService env) b) as [evs [v|e]]; [|reflexivity].
      destruct (validateAndCleanContract v); reflexivity.
  - unfold handler. rewrite Hp. now destruct (str_eqb (method req) (lit "OPTIONS")).
Qed.

(** X6: a request that is not a POST is answered without a rate check: the
    map is unchanged, the provider is not called, and the answer is an empty
    200 for OPTIONS and a 405 otherwise. *)
Theorem handler_other_methods (m : rate_map) (now : Z) (env : option str)
    (b : backend) (req : request) :
  method req <> lit "POST" ->
  map_of (handler m now env b req) = m /\
  events_of (handler m now env b req) = [] /\
  response_of (handler m now env b req) =
    (if str_eqb (method req) (lit "OPTIONS") then Ended 200 else method_not_allowed).
Proof.
  intros Hm. apply str_eqb_neq in Hm. unfold handler. rewrite Hm.
  destruct (str_eqb (method req) (lit "OPTIONS")); repeat split.
Qed.

Lemma handler_other_methods_witness :
  map_of (handler ∅ 1000 None (answering plain_contract) get_request) = ∅ /\
  events_of (handler ∅ 1000 None (answering plain_contract) get_request) = [] /\
  response_of (handler ∅ 1000 None (answering plain_contract) get_request) =
    method_not_allowed.
Proof.
  apply (handler_other_methods ∅ 1000 None (answering plain_contract) get_request).
  apply str_eqb_neq. reflexivity.
Defined.

(** X7: a POST of an identity that has [default_limit] times in the current
    window is answered with the 429 error; the map is unchanged and the
    provider is not called, whatever the body is. *)
Theorem handler_over_limit (m : rate_map) (now : Z) (env : option str)
    (b : backend) (req : request) :
  method req = lit "POST" ->
  (default_limit <= length (live default_window now (recorded m (clientIp req))))%nat ->
  handler m now env b req = (too_many_requests, m, []).
Proof.
  intros Hm Hfull. apply handler_refused; [assumption|].
  now apply checkRateLimit_reject.
Qed.

Lemma handler_over_limit_witness :
  handler {[ lit "203.0.113.7" := ten_times ]} 10 None (answering plain_contract)
    library_request =
    (too_many_requests, {[ lit "203.0.113.7" := ten_times ]}, []).
Proof.
  apply (handler_over_limit {[ lit "203.0.113.7" := ten_times ]} 10 None
           (answering plain_contract) library_request).
  - reflexivity.
  - change (clientIp library_request) with (lit "203.0.113.7").
    unfold recorded. rewrite lookup_singleton_eq. vm_compute. lia.
Defined.

(** X8: serving a request changes the record of no identity but the
    request's own. *)
Theorem handler_other_identities (m : rate_map) (now : Z) (env : option str)
    (b : backend) (req : request) (ip : str) :
  ip <> clientIp req ->
  map_of (handler m now env b req) !! ip = m !! ip.
Proof.
  intros Hne. rewrite handler_map.
  destruct (str_eqb (method req) (lit "POST")); [|reflexivity].
  now apply checkRateLimit_other_identities_aux.
Qed.

Lemma handler_other_identities_witness :
  map_of (handler {[ lit "198.51.100.2" := [5] ]} 1000 None (rejecting "down")
            library_request) !! lit "198.51.100.2" = Some [5].
Proof.
  rewrite (handler_other_identities {[ lit "198.51.100.2" := [5] ]} 1000 None
             (rejecting "down") library_request (lit "198.51.100.2")).
  - apply lookup_singleton_eq.
  - apply str_eqb_neq. reflexivity.
Defined.

Lemma handler_triple (m : rate_map) now env b req :
  handler m now env b req =
    (response_of (handler m now env b req), map_of (handler m now env b req),
     events_of (handler m now env b req)).
Proof. unfold response_of, map_of, events_of. now destruct (handler m now env b req) as [[? ?] ?]. Qed.

Lemma serve_map_checks ip env calls : forall (m : rate_map),
  from_identity ip calls ->
  snd (serve m env calls) =
    snd (checks m ip default_limit default_window (times_of calls)).
Proof.
  induction calls as [|[[now b] req] rest IH]; intros m Hall; [reflexivity|].
  apply Forall_cons in Hall as [[Hm Hip] Hrest]. cbn [snd] in Hm, Hip.
  cbn [serve times_of map checks fst snd].
  rewrite (handler_triple m now env b req), handler_map, Hm, Hip.
  change (str_eqb (lit "POST") (lit "POST")) with true. cbv iota.
  specialize (IH (snd (checkRateLimit m now ip default_limit default_window)) Hrest).
  destruct (checkRateLimit m now ip default_limit default_window) as [g m1].
  cbn [snd] in *.
  destruct (serve m1 env rest) as [outs m2].
  fold (times_of rest).
  destruct (checks m1 ip default_limit default_window (times_of rest)) as [bs m3].
  exact IH.
Qed.

(** X9: after ten POSTs of one identity served within one window, whatever
    their bodies and answers, the eleventh in the same window gets the 429
    error, without a provider call and without a change of the map. *)
Theorem serve_request_over_limit (m : rate_map) (env : option str)
    (calls : list (Z * backend * request)) (ip : str)
    (now : Z) (b : backend) (req : request) :
  length calls = default_limit ->
  from_identity ip calls ->
  method req = lit "POST" -> clientIp req = ip ->
  elapsed default_window (recorded m ip) (times_of calls) ->
  in_one_window default_window (times_of calls ++ [now]) ->
  handler (snd (serve m env calls)) now env b req =
    (too_many_requests, snd (serve m env calls), []).
Proof.
  intros Hlen Hall Hm Hip Hold Hwin.
  apply handler_refused; [assumption|]. apply checkRateLimit_reject.
  rewrite Hip, (serve_map_checks ip) by assumption.
  assert (Hn : length (times_of calls) = default_limit)
    by (unfold times_of; now rewrite length_map).
  destruct (checks_fresh ip default_limit default_window (times_of calls) m) as [_ Hrec].
  - assumption.
  - intros t1 t2 H1 H2. apply Hwin; apply elem_of_app; now left.
  - lia.
  - rewrite Hrec.
    + rewrite live_all; [lia|].
      intros t Ht. apply Hwin; apply elem_of_app; [now left | right; left].
    + intros E. rewrite E in Hn. discriminate Hn.
Qed.

Lemma in_one_window_range (window lo : Z) (times : list Z) :
  Forall (fun t => lo <= t < lo + window) times -> in_one_window window times.
Proof.
  intros Hall t1 t2 H1 H2. rewrite Forall_forall in Hall.
  apply Hall in H1. apply Hall in H2. lia.
Qed.

Lemma serve_request_over_limit_witness :
  handler (snd (serve ∅ None ten_requests)) 10000 None (answering plain_contract)
    library_request =
    (too_many_requests, snd (serve ∅ None ten_requests), []).
Proof.
  apply (serve_request_over_limit ∅ None ten_requests (lit "203.0.113.7") 10000
           (answering plain_contract) library_request).
  - reflexivity.
  - unfold from_identity, ten_requests. cbn [map].
    repeat (apply List.Forall_cons; [split; reflexivity|]). apply List.Forall_nil.
  - reflexivity.
  - reflexivity.
  - intros t now Ht. unfold recorded in Ht. rewrite lookup_empty in Ht.
    simpl in Ht. now apply not_elem_of_nil in Ht.
  - apply (in_one_window_range _ 0). unfold default_window, ten_requests.
    cbn [times_of map fst app].
    repeat (apply List.Forall_cons; [lia|]). apply List.Forall_nil.
Defined.

Lemma requirements_text_some v s :
  requirements_text v = Some s <-> v = Str s /\ (10 <= length s)%nat.
Proof.
  destruct v as [| | | |s'|]; simpl; try (split; [discriminate | intros [H _]; discriminate H]).
  destruct s' as [|c s'].
  - simpl. split; [discriminate|]. intros [[= <-] H]. simpl in H. lia.
  - cbn [andb]. destruct (Nat.ltb_spec (length (c :: s')) 10); cbn [negb].
    + split; [discriminate|]. intros [[= <-] H']. lia.
    + split; [intros [= <-]; now split | intros [[= ->] _]; reflexivity].
Qed.

Lemma handler_reaches_provider (m : rate_map) now env b req reqs :
  reaches_provider m now req reqs ->
  exists bd, req_body req = Some bd /\
  handler m now env b req =
    let m1 := <[clientIp req := live default_window now (recorded m (clientIp req)) ++ [now]]> m in
    let '(evs, generated) := generateContract (new_LLMService env) b in
    match generated with
    | Err e => (caught e, m1, evs)
    | Ok generatedContract =>
        match validateAndCleanContract generatedContract with
        | Err e => (caught e, m1, evs)
        | Ok cleanedContract =>
            (Success cleanedContract
               (if truthy (contractType bd) then contractType bd
                else Str (type_key (detectContractType reqs))),
             m1, evs)
        end
    end.
Proof.
  intros (Hm & Hg & bd & Hbd & Hreq & Hlen & Hlog & Hopt). exists bd. split; [assumption|].
  rewrite handler_post by assumption. rewrite Hbd.
  replace (requirements_text (requirements bd)) with (Some reqs)
    by (symmetry; apply requirements_text_some; split; [assumption | lia]).
  destruct (Nat.ltb_spec 5000 (length reqs)); [lia|]. now rewrite Hlog, Hopt.
Qed.

Lemma attempt_once_ok_supported svc b k v :
  snd (attempt_once svc b k) = Ok v ->
  supported svc /\ fst (attempt_once svc b k) = [Post (provider svc) k].
Proof.
  unfold attempt_once, supported.
  destruct (str_eqb (provider svc) (lit "openai")) eqn:H1.
  - apply str_eqb_eq in H1. intros _. split; [now left | reflexivity].
  - destruct (str_eqb (provider svc) (lit "anthropic")) eqn:H2.
    + apply str_eqb_eq in H2. intros _. split; [now right | reflexivity].
    + discriminate.
Qed.

(** X10: a success answer is only given to a POST that the governor let
    through, with requirements of 10 to 5000 code units; the category it
    reports is the explicit one if that is truthy and the detected one
    otherwise, the provider is a supported one, and one to three POSTs went
    out to it. *)
Theorem handler_success_preconditions (m : rate_map) (now : Z) (env : option str)
    (b : backend) (req : request) (c : str) (ty : value) :
  response_of (handler m now env b req) = Success c ty ->
  exists reqs bd,
    reaches_provider m now req reqs /\
    req_body req = Some bd /\
    ty = (if truthy (contractType bd) then contractType bd
          else Str (type_key (detectContractType reqs))) /\
    supported (new_LLMService env) /\
    (1 <= posts (events_of (handler m now env b req)) <= 3)%nat.
Proof.
  intros Hresp.
  destruct (str_eqb (method req) (lit "POST")) eqn:Hp.
  2:{ revert Hresp. unfold handler. rewrite Hp.
      destruct (str_eqb (method req) (lit "OPTIONS")); discriminate. }
  apply str_eqb_eq in Hp.
  destruct (Nat.leb_spec default_limit
              (length (live default_window now (recorded m (clientIp req))))) as [Hfull|Hroom].
  { rewrite (handler_refused m m now env b req Hp) in Hresp
      by now apply checkRateLimit_reject.
    discriminate. }
  revert Hresp. rewrite (handler_post m now env b req Hp Hroom).
  unfold response_of, events_of.
  destruct (req_body req) as [bd|] eqn:Hbd; [|discriminate].
  destruct (requirements_text (requirements bd)) as [reqs|] eqn:Hreq; [|discriminate].
  destruct (Nat.ltb_spec 5000 (length reqs)); [discriminate|].
  destruct (log_exn (contractType bd)) eqn:Hlog; [discriminate|].
  destruct (prompt_exn (detectedType bd reqs) (options bd)) eqn:Hopt; [discriminate|].
  pose proof (retry_loop_outcome (new_LLMService env) b 3 1 eq_refl ltac:(lia)) as Hout.
  pose proof (retry_loop_bounded (new_LLMService env) b 3 1 eq_refl) as (Hposts & _).
  unfold generateContract. change (maxRetries (new_LLMService env)) with 3%nat in *.
  destruct (retry_loop (new_LLMService env) b 3 1) as [evs [v|e]]; [|discriminate].
  cbn [fst snd] in Hout, Hposts.
  destruct (validateAndCleanContract v) as [cleaned|e]; [|discriminate].
  cbn [fst snd]. intros [= <- <-].
  apply requirements_text_some in Hreq as [Hreq Hten].
  destruct Hout as (k & Hk & Hok & _ & Hev).
  destruct (attempt_once_ok_supported _ _ _ _ Hok) as [Hsup _].
  exists reqs, bd. split.
  { split; [assumption|]. split; [assumption|]. exists bd.
    split; [assumption|]. split; [assumption|]. split; [lia|]. split; assumption. }
  split; [reflexivity|]. split; [reflexivity|]. split; [assumption|].
  split; [|assumption].
  rewrite Hev, trace_step, posts_app.
  rewrite (attempt_once_events _ b 1 Hsup). simpl. lia.
Qed.

Lemma handler_success_preconditions_witness :
  exists reqs bd,
    reaches_provider ∅ 1000 library_request reqs /\
    req_body library_request = Some bd /\
    Str (lit "custom") =
      (if truthy (contractType bd) then contractType bd
       else Str (type_key (detectContractType reqs))) /\
    supported (new_LLMService None) /\
    (1 <= posts (events_of (handler ∅ 1000 None (answering plain_contract)
                              library_request)) <= 3)%nat.
Proof.
  apply (handler_success_preconditions ∅ 1000 None (answering plain_contract)
           library_request plain_contract_clean (Str (lit "custom"))).
  rewrite handler_post.
  - vm_compute. reflexivity.
  - reflexivity.
  - fresh_identity.
Defined.

(** X11: when the backend answers the first attempt of a request that gets
    as far as the provider with a text that the sanitizer rejects, the text
    is not asked for again: the request fails with the sanitizer's error
    after the one POST. *)
Theorem handler_rejected_text_not_retried (m : rate_map) (now : Z) (env : option str)
    (b : backend) (req : request) (reqs : str) (v : value) (e : exn) :
  reaches_provider m now req reqs ->
  answers_with (new_LLMService env) b 1 v ->
  validateAndCleanContract v = Err e ->
  response_of (handler m now env b req) = caught e /\
  events_of (handler m now env b req) = [Post (provider (new_LLMService env)) 1].
Proof.
  intros Hreach Hans Hbad.
  pose proof (answers_with_ok _ _ _ _ Hans) as Hok.
  destruct (handler_reaches_provider m now env b req reqs Hreach) as (bd & _ & ->).
  destruct (attempt_once_ok_supported _ _ _ _ Hok) as [Hsup Hev].
  unfold generateContract. change (maxRetries (new_LLMService env)) with 3%nat.
  rewrite retry_loop_step.
  destruct (attempt_once (new_LLMService env) b 1) as [evs r]. cbn [fst snd] in Hok, Hev.
  subst r evs. cbv zeta. rewrite Hbad. split; reflexivity.
Qed.

Lemma handler_rejected_text_not_retried_witness :
  response_of (handler ∅ 1000 None (answering (lit "I cannot help with that."))
                 library_request) = caught no_contract /\
  events_of (handler ∅ 1000 None (answering (lit "I cannot help with that."))
               library_request) = [Post (lit "openai") 1].
Proof.
  apply (handler_rejected_text_not_retried ∅ 1000 None
           (answering (lit "I cannot help with that.")) library_request
           (lit "Write a small helper library") (Str (lit "I cannot help with that."))
           no_contract).
  - split; [reflexivity|]. split; [fresh_identity|].
    eexists. split; [reflexivity|]. split; [reflexivity|].
    split; [simpl; lia | split; reflexivity].
  - eexists. split; [reflexivity|]. left. split; reflexivity.
  - vm_compute. reflexivity.
Defined.

(** ** Classifier *)

Lemma scan_keywords_mono t1 t2 kws :
  (forall k, includes k t1 = true -> includes k t2 = true) ->
  scan_keywords t1 kws = true -> scan_keywords t2 kws = true.
Proof.
  intros Hmono. induction kws as [|k kws IH]; simpl; [discriminate|].
  destruct (includes k t1) eqn:H1.
  - now rewrite (Hmono k H1).
  - intros H. destruct (includes k t2); [reflexivity | now apply IH].
Qed.

Lemma first_hit_mono t1 t2 entries :
  (forall k, includes k t1 = true -> includes k t2 = true) ->
  (first_hit t2 entries <= first_hit t1 entries)%nat.
Proof.
  intros Hmono. induction entries as [|[t c] rest IH]; simpl; [lia|].
  destruct (scan_keywords t1 (keywords c)) eqn:H1.
  - now rewrite (scan_keywords_mono t1 t2 _ Hmono H1).
  - destruct (scan_keywords t2 (keywords c)); lia.
Qed.

(** The rank of the result is the place of the first hit, or that of
    [custom] when there is none. *)
Lemma rank_detect (requirements : str) :
  rank (detectContractType requirements) =
    Nat.min 6 (first_hit (toLowerCase requirements) contractTypes).
Proof.
  unfold detectContractType. set (text := toLowerCase requirements).
  unfold contractTypes. cbn [scan_types first_hit].
  repeat match goal with
         | |- context [scan_keywords text ?k] => destruct (scan_keywords text k); [reflexivity|]
         end.
  reflexivity.
Qed.

Lemma includes_app_l p a b : includes p a = true -> includes p (a ++ b) = true.
Proof.
  intros H. apply includes_inv in H as (x & y & ->).
  rewrite <- !app_assoc. apply includes_app.
Qed.

Lemma includes_app_r p a b : includes p b = true -> includes p (a ++ b) = true.
Proof.
  intros H. apply includes_inv in H as (x & y & ->).
  rewrite app_assoc. apply includes_app.
Qed.

(** X12: text added before or after the requirements can only move the
    detected category towards the front of the declared order. *)
Theorem detectContractType_more_text (a b : str) :
  (rank (detectContractType (a ++ b)) <= rank (detectContractType a))%nat /\
  (rank (detectContractType (b ++ a)) <= rank (detectContractType a))%nat.
Proof.
  rewrite !rank_detect. unfold toLowerCase. rewrite !map_app. split.
  - pose proof (first_hit_mono (map lower_unit a) (map lower_unit a ++ map lower_unit b)
                  contractTypes (fun k => includes_app_l k _ _)). lia.
  - pose proof (first_hit_mono (map lower_unit a) (map lower_unit b ++ map lower_unit a)
                  contractTypes (fun k => includes_app_r k _ _)). lia.
Qed.

(** Keywords that never decide. *)
Lemma includes_longer p q r s : includes (p ++ q ++ r) s = true -> includes q s = true.
Proof.
  intros H. apply includes_inv in H as (a & b & ->).
  rewrite <- !app_assoc, (app_assoc a p). apply includes_app.
Qed.

(** X13: the keyword 'non-fungible' of the NFT category never decides, since
    'fungible' of the token category occurs wherever it does; and of the
    keywords of the governance category only 'dao', 'proposal' and
    'democracy' can decide, 'governance' and 'voting' being keywords of the
    multisig category before it. *)
Theorem detectContractType_shadowed_keywords (requirements : str) :
  let text := toLowerCase requirements in
  (has "non-fungible" text = true -> detectContractType requirements = erc20) /\
  (detectContractType requirements = governance ->
   has "dao" text = true \/ has "proposal" text = true \/ has "democracy" text = true).
Proof.
  intros text. unfold detectContractType. fold text. split.
  - intros H. unfold has in H.
    apply (includes_longer (lit "non-") (lit "fungible") []) in H.
    unfold contractTypes. cbn [scan_types keywords map scan_keywords].
    repeat match goal with
           | |- context [includes ?k text] =>
               destruct (includes k text) eqn:?; [reflexivity|]
           end.
    congruence.
  - unfold contractTypes, has. cbn [scan_types keywords map scan_keywords].
    repeat match goal with
           | |- context [if includes ?k text then _ else _] =>
               destruct (includes k text) eqn:?; try discriminate; try (intros _; tauto)
           end.
Qed.

Lemma scan_types_app text l1 l2 :
  scan_types text (l1 ++ l2) =
    match scan_types text l1 with
    | Some t => Some t
    | None => scan_types text l2
    end.
Proof.
  induction l1 as [|[t c] l1 IH]; [reflexivity|]. simpl.
  now destruct (scan_keywords text (keywords c)).
Qed.

Lemma scan_types_in text l t : scan_types text l = Some t -> In t (map fst l).
Proof.
  induction l as [|[t0 c] l IH]; simpl; [discriminate|].
  destruct (scan_keywords text (keywords c)); [intros [= <-]; now left | auto].
Qed.

(** X14: the custom category is detected exactly when no keyword of the six
    categories before it occurs; its own keywords play no part. *)
Theorem detectContractType_custom_iff (requirements : str) :
  detectContractType requirements = custom <->
  Forall (fun e => ~ category_hit (toLowerCase requirements) (snd e))
    (take 6 contractTypes).
Proof.
  unfold detectContractType. set (text := toLowerCase requirements).
  rewrite <- (take_drop 6 contractTypes) at 1. rewrite scan_types_app.
  destruct (scan_types text (take 6 contractTypes)) as [t|] eqn:Hscan.
  - split.
    + intros ->. apply scan_types_in in Hscan. vm_compute in Hscan.
      intuition discriminate.
    + intros Hall. apply scan_types_some in Hscan
        as (pre & config & post & Heq & Hhit & _).
      rewrite Heq in Hall. apply Forall_app in Hall as [_ Hall].
      apply Forall_cons in Hall as [Hno _]. contradiction.
  - split.
    + intros _. now apply scan_types_none.
    + intros _. change (drop 6 contractTypes) with [(custom, snd (List.last contractTypes (custom, {| keywords := []; name := [] |})))].
      cbn [scan_types]. now destruct (scan_keywords _ _).
Qed.

(** ** Sanitizer: what every result looks like *)

Lemma trimStart_trim s : trimStart (trim s) = trim s.
Proof.
  unfold trim. destruct (trimStart_head s) as [->|(x & r & -> & Hx)]; [reflexivity|].
  rewrite trimEnd_solid_cons by assumption. now apply trimStart_trimmed.
Qed.

Lemma trimEnd_trim s : trimEnd (trim s) = trim s.
Proof. unfold trim. apply trimEnd_idem. Qed.

Lemma ascii_eqb_sym a b : ascii_eqb a b = ascii_eqb b a.
Proof. apply Ascii.eqb_sym. Qed.

Lemma calm_no_blank_run s : calm s = true -> includes [LF; LF; LF] s = false.
Proof.
  induction s as [|c s IH]; [reflexivity|].
  rewrite calm_cons. intros H. apply andb_true_iff in H as [Hc Hs].
  rewrite includes_cons, IH, orb_false_r by assumption.
  apply negb_true_iff in Hc.
  change (startsWith [LF; LF; LF] (c :: s)) with (ascii_eqb LF c && startsWith [LF; LF] s).
  now rewrite ascii_eqb_sym.
Qed.

(** X15: every text the sanitizer returns holds the license marker and the
    pragma marker, has no white space at either end, and has no three line
    feeds in a row. *)
Theorem validateAndCleanContract_result_shape (x r : str) :
  validateAndCleanContract (Str x) = Ok r ->
  includes license_marker r = true /\
  includes pragma_marker r = true /\
  trimStart r = r /\ trimEnd r = r /\
  includes [LF; LF; LF] r = false.
Proof.
  intros Hx. destruct (validate_ok x r Hx) as [-> _].
  split; [apply tidy_includes; [reflexivity | apply prepared_has_license]|].
  split; [apply tidy_includes; [reflexivity | apply prepared_has_pragma]|].
  rewrite tidy_eq. split; [apply trimStart_trim|]. split; [apply trimEnd_trim|].
  apply calm_no_blank_run. unfold trim. apply calm_trimEnd, calm_trimStart, calm_squeeze.
Qed.

Lemma validateAndCleanContract_result_shape_witness :
  includes license_marker plain_contract_clean = true /\
  includes pragma_marker plain_contract_clean = true /\
  trimStart plain_contract_clean = plain_contract_clean /\
  trimEnd plain_contract_clean = plain_contract_clean /\
  includes [LF; LF; LF] plain_contract_clean = false.
Proof.
  apply (validateAndCleanContract_result_shape plain_contract plain_contract_clean).
  vm_compute. reflexivity.
Defined.

(** ** Sanitizer: steps 1 to 3 only delete *)

Lemma replace_from_deletes r prev skip s : sublist (replace_from r [] prev skip s) s.
Proof.
  revert prev skip. induction s as [|c s IH]; intros prev skip.
  - simpl. destruct skip; [|constructor]. destruct (match_at r prev []); constructor.
  - cbn [replace_from]. destruct skip as [|k].
    + destruct (match_at r prev (c :: s)) as [[|n]|]; cbn [app].
      * apply sublist_skip, IH.
      * apply sublist_cons, IH.
      * apply sublist_skip, IH.
    + apply sublist_cons, IH.
Qed.

Lemma replaceAll_deletes r s : sublist (replaceAll r [] s) s.
Proof. apply replace_from_deletes. Qed.

Lemma fold_replace_deletes rs : forall s,
  sublist (fold_left (fun acc pattern => replaceAll pattern [] acc) rs s) s.
Proof.
  induction rs as [|r rs IH]; intros s; [reflexivity|].
  cbn [fold_left]. etransitivity; [apply IH | apply replaceAll_deletes].
Qed.

Lemma processLines_deletes : forall allLines found depth inContract,
  sublist (processLines found depth inContract allLines) allLines.
Proof.
  induction allLines as [|line rest IH]; intros found depth inContract; [constructor|].
  cbn [processLines].
  repeat match goal with
         | |- sublist (if ?c then _ else _) _ => destruct c
         | |- sublist (let _ := _ in _) _ => cbv zeta
         end;
    first [ apply sublist_cons, IH
          | apply sublist_skip, IH
          | apply sublist_skip, sublist_nil_l ].
Qed.

Lemma join_deletes l1 l2 : sublist l1 l2 -> sublist (join [LF] l1) (join [LF] l2).
Proof.
  induction 1 as [|x l1 l2 Hsub IH|x l1 l2 Hsub IH].
  - constructor.
  - destruct l1 as [|y l1].
    + destruct l2 as [|z l2]; [reflexivity|].
      rewrite join_cons. cbn [join]. apply sublist_inserts_r. reflexivity.
    + destruct l2 as [|z l2]; [apply sublist_nil_r in Hsub; discriminate|].
      rewrite !join_cons. apply sublist_app; [reflexivity|]. now apply sublist_skip.
  - destruct l2 as [|z l2].
    + apply sublist_nil_r in Hsub. subst l1. apply sublist_nil_l.
    + rewrite join_cons. apply sublist_inserts_l, sublist_cons, IH.
Qed.

(** X16: steps 1 to 3 of the sanitizer only delete: what they leave is a
    subsequence of the provider text. *)
Theorem stripNarration_only_deletes (contractCode : str) :
  sublist (stripNarration contractCode) contractCode.
Proof.
  unfold stripNarration.
  etransitivity; [apply join_deletes, processLines_deletes|].
  rewrite join_split.
  etransitivity; [apply fold_replace_deletes|].
  etransitivity; apply replaceAll_deletes.
Qed.

(** ** Fences *)

Lemma backticks_cons c s :
  backticks (c :: s) = if ascii_eqb c "`" then S (backticks s) else O.
Proof. reflexivity. Qed.

Lemma startsWith_cons x p y s :
  startsWith (x :: p) (y :: s) = ascii_eqb y x && startsWith p s.
Proof. simpl. now rewrite ascii_eqb_sym. Qed.

Lemma starts_fence s : startsWith fence s = (3 <=? backticks s)%nat.
Proof.
  change fence with ["`"; "`"; "`"]%char.
  destruct s as [|a s]; [reflexivity|]. rewrite startsWith_cons, backticks_cons.
  destruct (ascii_eqb a "`"); [|reflexivity].
  destruct s as [|b s]; [reflexivity|]. rewrite startsWith_cons, backticks_cons.
  destruct (ascii_eqb b "`"); [|reflexivity].
  destruct s as [|c s]; [reflexivity|]. rewrite startsWith_cons, backticks_cons.
  destruct (ascii_eqb c "`"); reflexivity.
Qed.

Lemma match_fence prev s :
  match_at fence_plain prev s =
    if startsWith fence s
    then Some (match drop 3 s with
               | c :: _ => if ascii_eqb c LF then 4%nat else 3%nat
               | [] => 3%nat
               end)
    else None.
Proof.
  unfold match_at, fence_plain. cbn [anchored ignoreCase atoms andb].
  cbn [exec]. change (lit_at false (lit "```") s) with (startsWith fence s).
  destruct (startsWith fence s); [|reflexivity].
  change (length (lit "```")) with 3%nat.
  destruct (drop 3 s) as [|c r]; [reflexivity|].
  destruct (ascii_eqb c LF); reflexivity.
Qed.

Lemma includes_fence_cons c o :
  includes fence (c :: o) = (3 <=? backticks (c :: o))%nat || includes fence o.
Proof. now rewrite includes_cons, starts_fence. Qed.

Lemma replace_fence_clean s : forall prev skip,
  includes fence (replace_from fence_plain [] prev skip s) = false /\
  (skip = O -> (backticks s < 3)%nat ->
   backticks (replace_from fence_plain [] prev skip s) = backticks s).
Proof.
  induction s as [|c s IH]; intros prev skip.
  - cbn [replace_from]. destruct skip; [destruct (match_at _ _ _)|]; now split.
  - cbn [replace_from]. destruct skip as [|k].
    + rewrite match_fence, starts_fence.
      destruct (Nat.leb_spec 3 (backticks (c :: s))) as [Hfull|Hfew].
      * assert (Hn : exists n, match drop 3 (c :: s) with
                               | c0 :: _ => if ascii_eqb c0 LF then 4%nat else 3%nat
                               | [] => 3%nat
                               end = S n).
        { destruct (drop 3 (c :: s)) as [|c0 r]; [now exists 2%nat|].
          destruct (ascii_eqb c0 LF); eauto. }
        destruct Hn as [n ->]. cbn [app].
        split; [apply IH | intros _ H; lia].
      * cbn [app]. destruct (IH (Some c) O) as [Hclean Hlead].
        rewrite backticks_cons in Hfew.
        assert (Hsame : backticks (c :: replace_from fence_plain [] (Some c) 0 s) =
                        backticks (c :: s)).
        { rewrite !backticks_cons. destruct (ascii_eqb c "`"); [|reflexivity].
          rewrite Hlead; [reflexivity | reflexivity | lia]. }
        split.
        -- rewrite includes_fence_cons, Hclean, Hsame, backticks_cons, orb_false_r.
           apply Nat.leb_gt. assumption.
        -- intros _ _. exact Hsame.
    + split; [apply IH | discriminate].
Qed.

Lemma replaceAll_fence_clean s : includes fence (replaceAll fence_plain [] s) = false.
Proof. apply replace_fence_clean. Qed.

Lemma fence_solid : solid fence = true.
Proof. reflexivity. Qed.

Lemma ensureLicense_fence_count t :
  occurrences fence (ensureLicense t) = occurrences fence t.
Proof.
  unfold ensureLicense. destruct (includes license_marker t); [reflexivity|].
  change (default_license ++ [LF] ++ t) with (default_license ++ LF :: t).
  now rewrite occurrences_solid_app_lf by reflexivity.
Qed.

Lemma ensurePragma_fence_count u :
  includes license_marker u = true ->
  occurrences fence (ensurePragma u) = occurrences fence u.
Proof.
  intros Hl. destruct (includes pragma_marker u) eqn:Hp.
  - now rewrite ensurePragma_present.
  - destruct (ensurePragma_absent u Hp Hl) as (pre & l & post & Hs & _ & _ & ->).
    rewrite occurrences_insert_line by reflexivity.
    rewrite <- Hs, join_split.
    change (occurrences fence default_pragma) with 0%nat. lia.
Qed.

(** X17: the sanitizer of the earlier version of the generation function,
    which only strips the fences, returns no text with a fence in it. *)
Theorem earlier_validateAndCleanContract_no_fence (x r : str) :
  Earlier.validateAndCleanContract (Str x) = Ok r ->
  includes fence r = false.
Proof.
  destruct x as [|c x]; [discriminate|].
  unfold Earlier.validateAndCleanContract.
  destruct (negb (hasDeclaration _)); [discriminate|].
  intros [= <-]. apply includes_false_occurrences.
  rewrite occurrences_tidy by reflexivity.
  rewrite ensurePragma_fence_count by apply ensureLicense_has.
  rewrite ensureLicense_fence_count.
  apply includes_false_occurrences, replaceAll_fence_clean.
Qed.

Lemma earlier_validateAndCleanContract_no_fence_witness :
  Earlier.validateAndCleanContract (Str fenced_contract) = Ok plain_contract_clean /\
  includes fence plain_contract_clean = false.
Proof.
  assert (H : Earlier.validateAndCleanContract (Str fenced_contract) = Ok plain_contract_clean)
    by (vm_compute; reflexivity).
  split; [exact H|].
  exact (earlier_validateAndCleanContract_no_fence fenced_contract plain_contract_clean H).
Defined.

(** ** What the line loop keeps first *)

Lemma isSolidityLine_start t :
  isSolidityLine false t = true ->
  starts "// SPDX-License-Identifier:" t = true \/ starts "pragma solidity" t = true \/
  starts "import " t = true \/ test_start declaration_re t = true.
Proof.
  unfold isSolidityLine. rewrite andb_false_r. cbn [andb]. rewrite !orb_false_r.
  intros H. apply orb_true_iff in H as [H|H]; [|tauto].
  apply orb_true_iff in H as [H|H]; [|tauto].
  apply orb_true_iff in H as [H|H]; tauto.
Qed.

Lemma processLines_first_line : forall allLines depth inContract,
  match processLines false depth inContract allLines with
  | [] => True
  | line :: _ => code_start line
  end.
Proof.
  induction allLines as [|line rest IH]; intros depth inContract; [exact I|].
  cbn [processLines]. cbn [negb andb].
  destruct (str_eqb (trim line) []); [apply IH|].
  destruct (isSolidityLine false (trim line)) eqn:Hsol.
  - apply isSolidityLine_start in Hsol. cbn [negb andb].
    repeat match goal with
           | |- context [if ?c then _ else _] => destruct c
           end; exact Hsol.
  - cbn [negb andb]. apply IH.
Qed.

Lemma split_join_lines ls :
  ls <> [] -> Forall lf_free ls -> split LF (join [LF] ls) = ls.
Proof.
  induction ls as [|l ls IH]; [contradiction|]. intros _ Hall.
  apply Forall_cons in Hall as [Hl Hls].
  destruct ls as [|l2 ls].
  - cbn [join]. clear IH Hls. induction Hl as [|c l Hc Hl IHl]; [reflexivity|].
    rewrite split_cons, Hc, IHl. reflexivity.
  - rewrite join_cons, split_app_lf by assumption. f_equal. now apply IH.
Qed.

Lemma Forall_sublist {A} (P : A -> Prop) l1 l2 : sublist l1 l2 -> Forall P l2 -> Forall P l1.
Proof.
  induction 1 as [|x l1 l2 _ IH|x l1 l2 _ IH]; intros Hall.
  - constructor.
  - apply Forall_cons in Hall as [Hx Hall]. constructor; auto.
  - apply Forall_cons in Hall as [_ Hall]. auto.
Qed.

(** X18: what steps 1 to 3 leave is empty or starts with a line that opens
    Solidity code: a license line, a pragma, an import or a declaration. *)
Theorem stripNarration_starts_with_code (contractCode : str) :
  stripNarration contractCode = [] \/
  exists line rest,
    split LF (stripNarration contractCode) = line :: rest /\ code_start line.
Proof.
  unfold stripNarration.
  set (cleaned := fold_left _ _ _).
  pose proof (processLines_first_line (split LF cleaned) 0 false) as Hfirst.
  pose proof (processLines_deletes (split LF cleaned) false 0 false) as Hsub.
  destruct (processLines false 0 false (split LF cleaned)) as [|line rest]; [now left|].
  right. exists line, rest. split; [|assumption].
  apply split_join_lines; [discriminate|].
  eapply Forall_sublist; [exact Hsub | apply split_lf_free].
Qed.

(** ** The types function and the browser side *)

Lemma frontend_scan_keywords_spec text kws :
  Frontend.scan_keywords text kws = true <-> Exists (fun k => includes k text = true) kws.
Proof.
  induction kws as [|k kws IH]; simpl.
  - split; [discriminate | intros H; inversion H].
  - destruct (includes k text) eqn:Hk.
    + split; [intros _; now constructor | reflexivity].
    + rewrite IH. split; [now constructor 2 |].
      intros H; inversion H; subst; [congruence | assumption].
Qed.

Lemma frontend_scan_types_hit text :
  forall (fs : list Frontend.type_info) (ss : list (contract_type * type_config)),
  Forall2 (fun f s => incl (Frontend.keywords f) (keywords (snd s))) fs ss ->
  forall k, Frontend.scan_types text fs = Some k ->
  exists i f, fs !! i = Some f /\ Frontend.type f = k /\ (first_hit text ss <= i)%nat.
Proof.
  induction 1 as [|f [t c] fs ss Hincl _ IH]; intros k; [discriminate|].
  cbn [Frontend.scan_types first_hit].
  destruct (Frontend.scan_keywords text (Frontend.keywords f)) eqn:Hf.
  - intros [= <-]. exists 0%nat, f. split; [reflexivity|]. split; [reflexivity|].
    replace (scan_keywords text (keywords c)) with true; [lia|].
    symmetry. apply scan_keywords_spec. apply frontend_scan_keywords_spec in Hf.
    apply Exists_exists in Hf as (kw & Hin & Hkw). apply Exists_exists.
    exists kw. split; [|assumption].
    apply list_elem_of_In. apply Hincl. now apply list_elem_of_In.
  - intros Hk. destruct (IH k Hk) as (i & f' & Hi & Hty & Hle).
    exists (S i), f'. split; [assumption|]. split; [assumption|].
    destruct (scan_keywords text (keywords c)); lia.
Qed.

Lemma frontend_scan_types_in text fs k :
  Frontend.scan_types text fs = Some k -> In k (map Frontend.type fs).
Proof.
  induction fs as [|f fs IH]; simpl; [discriminate|].
  destruct (Frontend.scan_keywords text (Frontend.keywords f)); [intros [= <-]; now left | auto].
Qed.

Lemma served_keywords_known :
  Forall2 (fun f s => incl (Frontend.keywords f) (keywords (snd s)))
    served_types contractTypes.
Proof.
  unfold served_types, TypesApi.contractTypes, contractTypes.
  cbn [map Frontend.of_entry TypesApi.type TypesApi.keywords].
  repeat (apply List.Forall2_cons;
          [cbn [Frontend.keywords keywords snd map];
           intros k Hk; simpl in Hk |- *; intuition |]).
  apply List.Forall2_nil.
Qed.

(** X19: with the table the types function serves, the category the browser
    detects is never before the one the generation function detects for the
    same requirements. *)
Theorem frontend_detection_not_later (requirements : str) (t : contract_type) :
  Frontend.detectContractType (Some served_types) requirements = type_key t ->
  (rank (Templates.detectContractType requirements) <= rank t)%nat.
Proof.
  unfold Frontend.detectContractType. rewrite rank_detect.
  destruct (Frontend.scan_types (toLowerCase requirements) served_types) as [k|] eqn:Hscan.
  - intros ->.
    destruct (frontend_scan_types_hit _ _ _ served_keywords_known _ Hscan)
      as (i & f & Hi & Hty & Hle).
    assert (Hrank : (i <= rank t)%nat).
    { do 7 (destruct i as [|i];
            [cbn in Hi; injection Hi as <-; destruct t;
             apply (proj2 (str_eqb_eq _ _)) in Hty; vm_compute in Hty;
             first [discriminate Hty | cbn [rank]; lia]|]).
      discriminate Hi. }
    lia.
  - intros Hk. destruct t; apply (proj2 (str_eqb_eq _ _)) in Hk; vm_compute in Hk;
      first [discriminate Hk | apply Nat.le_min_l].
Qed.

Lemma frontend_detection_not_later_witness :
  (rank (Templates.detectContractType (lit "A non-fungible badge")) <= rank erc721)%nat.
Proof.
  apply (frontend_detection_not_later (lit "A non-fungible badge") erc721).
  vm_compute. reflexivity.
Defined.

Lemma frontend_request_type_known (types : list Frontend.type_info) (requirements k : str) :
  incl (map Frontend.type types) supported_keys ->
  Frontend.request_contractType (Some types) requirements = Some k ->
  In k supported_keys /\ k <> lit "custom" /\ k <> [].
Proof.
  intros Hincl. unfold Frontend.request_contractType, Frontend.detectContractType.
  destruct (Frontend.scan_types (toLowerCase requirements) types) as [t|] eqn:Hscan;
    [|discriminate].
  destruct t as [|c t]; [discriminate|].
  destruct (str_eqb (c :: t) (lit "custom")) eqn:Hc; [discriminate|]. cbn [negb].
  intros [= <-]. split; [|split; [now apply str_eqb_neq | discriminate]].
  apply Hincl. now apply frontend_scan_types_in in Hscan.
Qed.

(** X20: whatever the types function answered, and also when fetching it
    failed, the [contractType] the browser puts in its request is one of the
    supported keys other than 'custom', or is absent. *)
Theorem frontend_request_type_supported (method : str) (requirements : str) :
  let known k := In k supported_keys /\ k <> lit "custom" in
  match Frontend.request_contractType
          (Frontend.initializeSupportedTypes
             (Frontend.fetch_types (TypesApi.handler method))) requirements with
  | Some k => known k
  | None => True
  end /\
  match Frontend.request_contractType
          (Frontend.initializeSupportedTypes Frontend.FetchFailed) requirements with
  | Some k => known k
  | None => True
  end.
Proof.
  intros known.
  assert (Hgen : forall types,
            incl (map Frontend.type types) supported_keys ->
            match Frontend.request_contractType (Some types) requirements with
            | Some k => known k
            | None => True
            end).
  { intros types Hincl.
    destruct (Frontend.request_contractType (Some types) requirements) as [k|] eqn:Hk;
      [|exact I].
    destruct (frontend_request_type_known _ _ _ Hincl Hk) as (Hin & Hne & _).
    split; assumption. }
  split.
  - unfold TypesApi.handler.
    destruct (str_eqb method (lit "OPTIONS")).
    + apply Hgen. intros k Hk. vm_compute in Hk |- *. tauto.
    + destruct (negb (str_eqb method (lit "GET"))); [exact I|].
      apply Hgen. intros k Hk. exact Hk.
  - apply Hgen. intros k Hk. vm_compute in Hk |- *. tauto.
Qed.

(** ** The browser's request at the generation function *)

Lemma browser_types_known (supportedTypes : option (list Frontend.type_info))
    (requirements k : str) :
  browser_types supportedTypes ->
  Frontend.request_contractType supportedTypes requirements = Some k ->
  In k supported_keys /\ k <> lit "custom" /\ k <> [].
Proof.
  intros [-> | [-> | ->]].
  - discriminate.
  - apply frontend_request_type_known. intros t Ht. vm_compute in Ht |- *. tauto.
  - apply frontend_request_type_known. intros t Ht. exact Ht.
Qed.

Lemma type_key_supported (t : contract_type) : In (type_key t) supported_keys.
Proof. destruct t; vm_compute; tauto. Qed.

Lemma handler_success_type (m : rate_map) (now : Z) (env : option str)
    (b : backend) (req : request) (c : str) (ty : value) :
  response_of (handler m now env b req) = Success c ty ->
  exists bd reqs,
    req_body req = Some bd /\ requirements bd = Str reqs /\
    ty = (if truthy (contractType bd) then contractType bd
          else Str (type_key (detectContractType reqs))).
Proof.
  intros Hresp.
  destruct (str_eqb (method req) (lit "POST")) eqn:Hp.
  2:{ revert Hresp. unfold handler. rewrite Hp.
      destruct (str_eqb (method req) (lit "OPTIONS")); discriminate. }
  apply str_eqb_eq in Hp.
  destruct (Nat.leb_spec default_limit
              (length (live default_window now (recorded m (clientIp req))))) as [Hfull|Hroom].
  { rewrite (handler_refused m m now env b req Hp) in Hresp
      by now apply checkRateLimit_reject.
    discriminate. }
  revert Hresp. rewrite (handler_post m now env b req Hp Hroom).
  unfold response_of.
  destruct (req_body req) as [bd|] eqn:Hbd; [|discriminate].
  destruct (requirements_text (requirements bd)) as [reqs|] eqn:Hreq; [|discriminate].
  destruct (5000 <? length reqs)%nat; [discriminate|].
  destruct (log_exn (contractType bd)); [discriminate|].
  destruct (prompt_exn (detectedType bd reqs) (options bd)); [discriminate|].
  destruct (generateContract (new_LLMService env) b) as [evs [v|e]]; [|discriminate].
  destruct (validateAndCleanContract v) as [cleaned|e]; [|discriminate].
  cbn [fst]. intros [= <- <-].
  apply requirements_text_some in Hreq as [Hreq _].
  exists bd, reqs. repeat split; assumption.
Qed.

(** X21: a success answer to a request of the browser reports a supported
    category: the one the browser put in its request, or, when the browser
    put none, the one the generation function detects. *)
Theorem frontend_request_reported_type (supportedTypes : option (list Frontend.type_info))
    (requirements : str) (fields : option_fields)
    (m : rate_map) (now : Z) (env : option str) (b : backend) (req : request)
    (c : str) (ty : value) :
  browser_types supportedTypes ->
  req_body req = Some (Frontend.request_body supportedTypes requirements fields) ->
  response_of (handler m now env b req) = Success c ty ->
  exists k, ty = Str k /\ In k supported_keys /\
    match Frontend.request_contractType supportedTypes requirements with
    | Some sent => k = sent
    | None => k = type_key (Templates.detectContractType requirements)
    end.
Proof.
  intros Hst Hbody Hresp.
  destruct (handler_success_type m now env b req c ty Hresp) as (bd & reqs & Hbd & Hreq & ->).
  rewrite Hbody in Hbd. injection Hbd as <-.
  cbn [Frontend.request_body Api.requirements contractType] in Hreq |- *.
  injection Hreq as <-.
  destruct (Frontend.request_contractType supportedTypes requirements) as [k|] eqn:Hk.
  - destruct (browser_types_known _ _ _ Hst Hk) as (Hin & _ & Hne).
    exists k. destruct k as [|x k]; [contradiction|]. cbn [truthy].
    split; [reflexivity|]. split; [assumption | reflexivity].
  - cbn [truthy]. eexists. split; [reflexivity|].
    split; [apply type_key_supported | reflexivity].
Qed.

(** The browser holds the served table and sends "erc20", which the answer
    reports; a browser whose table has not come sends no category, and the
    answer reports the one detected by the generation function. *)
Lemma frontend_request_reported_type_witness :
  (exists k,
     Str (lit "erc20") = Str k /\ In k supported_keys /\
     match Frontend.request_contractType (Some served_types)
             (lit "Create a token called FooCoin") with
     | Some sent => k = sent
     | None => k = type_key (Templates.detectContractType (lit "Create a token called FooCoin"))
     end) /\
  (exists k,
     Str (lit "governance") = Str k /\ In k supported_keys /\
     match Frontend.request_contractType None (lit "Set up a DAO for our club") with
     | Some sent => k = sent
     | None => k = type_key (Templates.detectContractType (lit "Set up a DAO for our club"))
     end).
Proof.
  split.
  - apply (frontend_request_reported_type (Some served_types)
             (lit "Create a token called FooCoin") no_fields
             ∅ 1000 None (answering plain_contract)
             (browser_request (Some served_types) "203.0.113.7"
                (lit "Create a token called FooCoin") no_fields)
             plain_contract_clean (Str (lit "erc20"))).
    + right. right. reflexivity.
    + reflexivity.
    + rewrite handler_post.
      * vm_compute. reflexivity.
      * reflexivity.
      * fresh_identity.
  - apply (frontend_request_reported_type None
             (lit "Set up a DAO for our club") no_fields
             ∅ 1000 None (answering plain_contract)
             (browser_request None "203.0.113.7"
                (lit "Set up a DAO for our club") no_fields)
             plain_contract_clean (Str (lit "governance"))).
    + left. reflexivity.
    + reflexivity.
    + rewrite handler_post.
      * vm_compute. reflexivity.
      * reflexivity.
      * fresh_identity.
Defined.

(** ** Paging *)

Lemma ceil_div_bounds a b :
  0 <= a -> 1 <= b ->
  (History.ceil_div a b - 1) * b < a <= History.ceil_div a b * b \/
  (a = 0 /\ History.ceil_div a b = 0).
Proof.
  intros Ha Hb. unfold History.ceil_div.
  destruct (Z.eq_dec a 0) as [->|Hne].
  - right. split; [reflexivity|]. apply Z.div_small. lia.
  - left. pose proof (Z.div_mod (a + b - 1) b ltac:(lia)) as Hdm.
    pose proof (Z.mod_pos_bound (a + b - 1) b ltac:(lia)) as Hmod. nia.
Qed.

Lemma ceil_div_pos a b : 1 <= a -> 1 <= b -> 1 <= History.ceil_div a b.
Proof.
  intros Ha Hb. destruct (ceil_div_bounds a b ltac:(lia) Hb) as [H|[H _]]; [nia | lia].
Qed.

Lemma slice_window {A} (l : list A) (s e : Z) :
  0 <= s <= e ->
  History.slice s e l = take (Z.to_nat (Z.min e (Z.of_nat (length l)) - Z.min s (Z.of_nat (length l))))
                          (drop (Z.to_nat (Z.min s (Z.of_nat (length l)))) l).
Proof.
  intros H. unfold History.slice.
  destruct (Z.ltb_spec s 0); [lia|]. destruct (Z.ltb_spec e 0); [lia|]. reflexivity.
Qed.

(** X22: with at least one stored result and a page size of one or more,
    [setPage] leaves a current page between 1 and the number of pages, the
    requested one if it is in that range, and that page shows between one
    and [itemsPerPage] results. *)
Theorem setPage_clamps (h : History.HistoryManager) (page : Z) :
  history_ok h ->
  1 <= History.totalItems h ->
  let h' := History.setPage h page in
  1 <= History.currentPage h' <= History.getTotalPages h' /\
  (1 <= page <= History.getTotalPages h -> History.currentPage h' = page) /\
  (1 <= length (History.getPaginatedData h'))%nat /\
  Z.of_nat (length (History.getPaginatedData h')) <= History.itemsPerPage h.
Proof.
  intros [Htot Hipp] Hone h'.
  pose proof (ceil_div_pos _ _ Hone Hipp) as Hmax.
  destruct (ceil_div_bounds (History.totalItems h) (History.itemsPerPage h) ltac:(lia) Hipp)
    as [Hb|[H0 _]]; [|lia].
  unfold h', History.setPage, History.getTotalPages, History.getPaginatedData.
  cbn [History.currentPage History.itemsPerPage History.totalItems History.data].
  set (mx := History.ceil_div (History.totalItems h) (History.itemsPerPage h)) in *.
  set (ipp := History.itemsPerPage h) in *.
  set (cur := if mx <? page then mx else if page <? 1 then 1 else page).
  assert (Hcur : 1 <= cur <= mx).
  { unfold cur. destruct (Z.ltb_spec mx page); [lia|]. destruct (Z.ltb_spec page 1); lia. }
  split; [exact Hcur|]. split.
  { intros Hp. unfold cur. destruct (Z.ltb_spec mx page); [lia|].
    destruct (Z.ltb_spec page 1); lia. }
  rewrite slice_window by nia.
  rewrite length_take, length_drop. rewrite <- Htot. nia.
Qed.

Lemma seven_items_ok : history_ok seven_items.
Proof. split; [reflexivity | vm_compute; discriminate]. Qed.

Lemma setPage_clamps_witness :
  1 <= History.currentPage (History.setPage seven_items 9)
    <= History.getTotalPages (History.setPage seven_items 9) /\
  (1 <= 9 <= History.getTotalPages seven_items ->
   History.currentPage (History.setPage seven_items 9) = 9) /\
  (1 <= length (History.getPaginatedData (History.setPage seven_items 9)))%nat /\
  Z.of_nat (length (History.getPaginatedData (History.setPage seven_items 9)))
    <= History.itemsPerPage seven_items.
Proof.
  apply (setPage_clamps seven_items 9).
  - exact seven_items_ok.
  - vm_compute. discriminate.
Defined.

(** X23: with no stored result, [setPage] of any page from 1 on sets the
    current page to 0, not 1; that page shows nothing. *)
Theorem setPage_empty_history (h : History.HistoryManager) (page : Z) :
  history_ok h ->
  History.totalItems h = 0 ->
  1 <= page ->
  History.currentPage (History.setPage h page) = 0 /\
  History.getPaginatedData (History.setPage h page) = [] /\
  History.getTotalPages h = 0.
Proof.
  intros [Htot Hipp] Hzero Hpage.
  assert (Hmax : History.ceil_div (History.totalItems h) (History.itemsPerPage h) = 0).
  { rewrite Hzero. unfold History.ceil_div. apply Z.div_small. lia. }
  assert (Hdata : History.data h = []).
  { destruct (History.data h); [reflexivity|]. simpl in Htot. lia. }
  unfold History.setPage, History.getTotalPages, History.getPaginatedData.
  cbn [History.currentPage History.itemsPerPage History.totalItems History.data].
  rewrite Hmax, Hdata.
  destruct (Z.ltb_spec 0 page); [|lia].
  repeat split. unfold History.slice. rewrite drop_nil, take_nil. reflexivity.
Qed.

Lemma setPage_empty_history_witness :
  History.currentPage (History.setPage (History.new_HistoryManager []) 1) = 0 /\
  History.getPaginatedData (History.setPage (History.new_HistoryManager []) 1) = [] /\
  History.getTotalPages (History.new_HistoryManager []) = 0.
Proof.
  apply (setPage_empty_history (History.new_HistoryManager []) 1).
  - split; [reflexivity | vm_compute; discriminate].
  - reflexivity.
  - lia.
Defined.

Lemma pages_from_drop (h : History.HistoryManager) (count : nat) (page : Z) :
  history_ok h ->
  1 <= page ->
  page - 1 + Z.of_nat count = History.getTotalPages h ->
  pages_from h page count =
    drop (Z.to_nat ((page - 1) * History.itemsPerPage h)) (History.data h).
Proof.
  intros [Htot Hipp]. revert page. induction count as [|c IH]; intros page Hpage Hsum.
  - cbn [pages_from]. symmetry. apply drop_ge.
    unfold History.getTotalPages in Hsum.
    destruct (ceil_div_bounds (History.totalItems h) (History.itemsPerPage h) ltac:(lia) Hipp)
      as [Hb|[H0 Hc]]; [nia|]. rewrite H0 in Htot. lia.
  - cbn [pages_from]. rewrite IH by lia.
    unfold History.getTotalPages in Hsum.
    destruct (ceil_div_bounds (History.totalItems h) (History.itemsPerPage h) ltac:(lia) Hipp)
      as [Hb|[H0 Hc]]; [|lia].
    unfold History.setPage, History.getPaginatedData.
    cbn [History.currentPage History.itemsPerPage History.totalItems History.data].
    set (mx := History.ceil_div (History.totalItems h) (History.itemsPerPage h)) in *.
    set (ipp := History.itemsPerPage h) in *.
    destruct (Z.ltb_spec mx page); [lia|]. destruct (Z.ltb_spec page 1); [lia|].
    rewrite slice_window by nia.
    set (len := Z.of_nat (length (History.data h))) in *.
    replace (page + 1 - 1) with page by lia.
    destruct (Z.le_gt_cases (page * ipp) len) as [Hin|Hout].
    + rewrite Z.min_l by nia. rewrite (Z.min_l ((page - 1) * ipp)) by nia.
      replace (Z.to_nat (page * ipp)) with
        (Z.to_nat ((page - 1) * ipp) + Z.to_nat ((page - 1) * ipp + ipp - (page - 1) * ipp))%nat by nia.
      rewrite <- drop_drop. apply take_drop.
    + rewrite (Z.min_l ((page - 1) * ipp)) by nia. rewrite Z.min_r by nia.
      rewrite (drop_ge _ (Z.to_nat (page * ipp))) by (unfold len in *; nia).
      rewrite app_nil_r. apply take_ge. rewrite length_drop. unfold len in *. nia.
Qed.

(** X24: the pages 1 to [getTotalPages()], one after the other, show every
    stored result once and in order. *)
Theorem pages_cover_data (h : History.HistoryManager) :
  history_ok h ->
  pages_from h 1 (Z.to_nat (History.getTotalPages h)) = History.data h.
Proof.
  intros Hok. rewrite pages_from_drop; try assumption; try lia.
  - reflexivity.
  - destruct Hok as [Htot Hipp]. unfold History.getTotalPages.
    destruct (ceil_div_bounds (History.totalItems h) (History.itemsPerPage h) ltac:(lia) Hipp)
      as [Hb|[H0 Hc]]; nia.
Qed.

Lemma pages_cover_data_witness :
  pages_from seven_items 1 (Z.to_nat (History.getTotalPages seven_items)) =
    History.data seven_items.
Proof. apply (pages_cover_data seven_items). exact seven_items_ok. Defined.

Lemma load_from_spec (storage : list (str * str)) (index : Z) :
  map History.message (History.load_from index storage) =
    filter (fun k => k <> lit "web3AuthData") (map fst storage) /\
  map History.order (History.load_from index storage) =
    seqZ index (Z.of_nat (length (History.load_from index storage))).
Proof.
  revert index. induction storage as [|[k v] rest IH]; intros index.
  - split; reflexivity.
  - cbn [History.load_from map fst]. rewrite filter_cons.
    destruct (IH index) as [IHm IHo]. destruct (IH (index + 1)) as [IHm' IHo'].
    destruct (str_eqb k (lit "web3AuthData")) eqn:Hk; cbn [negb].
    + apply str_eqb_eq in Hk. destruct (decide (k <> lit "web3AuthData")); [contradiction|].
      split; assumption.
    + apply str_eqb_neq in Hk. destruct (decide (k <> lit "web3AuthData")); [|contradiction].
      cbn [map History.message History.order length]. split.
      * f_equal. exact IHm'.
      * rewrite IHo'. rewrite Nat2Z.inj_succ. rewrite (seqZ_cons index) by lia.
        f_equal. f_equal. lia.
Qed.

(** X25: [loadData] lists the keys of the storage other than 'web3AuthData',
    in their order, numbers them from 1 without a gap, and leaves the page
    and the page size as they were. *)
Theorem loadData_numbers_entries (h : History.HistoryManager) (storage : list (str * str)) :
  let h' := History.loadData h storage in
  map History.message (History.data h') =
    filter (fun k => k <> lit "web3AuthData") (map fst storage) /\
  map History.order (History.data h') = seqZ 1 (History.totalItems h') /\
  History.totalItems h' = Z.of_nat (length (History.data h')) /\
  History.currentPage h' = History.currentPage h /\
  History.itemsPerPage h' = History.itemsPerPage h.
Proof.
  intros h'. unfold h', History.loadData.
  cbn [History.currentPage History.itemsPerPage History.totalItems History.data].
  destruct (load_from_spec storage 1) as [Hm Ho]. repeat split; assumption.
Qed.

(** X26: [setItemsPerPage] of a size of one or more goes back to page 1,
    which then shows the first results, as many as the size allows. *)
Theorem setItemsPerPage_first_page (h : History.HistoryManager) (items : Z) :
  1 <= items ->
  History.currentPage (History.setItemsPerPage h items) = 1 /\
  History.getPaginatedData (History.setItemsPerPage h items) =
    take (Z.to_nat items) (History.data h).
Proof.
  intros Hitems. split; [reflexivity|].
  unfold History.getPaginatedData, History.setItemsPerPage.
  cbn [History.currentPage History.itemsPerPage History.data].
  rewrite slice_window by lia.
  replace ((1 - 1) * items) with 0 by lia. rewrite Z.add_0_l.
  rewrite (Z.min_l 0) by lia. rewrite Z.sub_0_r.
  change (Z.to_nat 0) with 0%nat. rewrite drop_0.
  destruct (Z.le_gt_cases items (Z.of_nat (length (History.data h)))) as [Hin|Hout].
  - now rewrite Z.min_l by assumption.
  - rewrite Z.min_r by lia. rewrite Nat2Z.id.
    rewrite firstn_all. symmetry. apply take_ge. lia.
Qed.

Lemma setItemsPerPage_first_page_witness :
  History.currentPage (History.setItemsPerPage seven_items 3) = 1 /\
  History.getPaginatedData (History.setItemsPerPage seven_items 3) =
    take (Z.to_nat 3) (History.data seven_items).
Proof. apply (setItemsPerPage_first_page seven_items 3). lia. Defined.
